(** * Avatar lip-sync studio: a shallow embedding of the animator, the audio
      engine, the speech synthesizer with its WAV encoder, and the recorder

    Sources embedded here:
    - [src/web/src/components/AvatarCanvas.tsx]  ([clamp01], the blink state
      machine of [render], [drawFacialFeatures], [computeCameraOffset]);
    - [src/web/src/hooks/useAudioEngine.ts]  ([seek], [cleanupSource],
      [release], [synthesizeSpeech], [encodeWav], [floatTo16BitPCM],
      [writeString]);
    - the export panel ([startRecording], [stopRecording]).

    Numbers.  A JavaScript [number] is an IEEE-754 binary64 value, and two
    embeddings of it are used.
    - [JS.number] keeps the three non-finite values ([NaN], [+Infinity],
      [-Infinity]) and represents every finite value by the rational it
      denotes, with exact arithmetic (no rounding to 53 bits, no signed
      zero).  The animator, the transport controls and the WAV encoder are
      stated over it; the blink machine, whose values are built from decimal
      constants, uses plain [Q].  For the encoder nothing is lost: a 32-bit
      float sample times 32767 or 32768 is exact in binary64.
    - The kernel's primitive floats are binary64 itself.  The durations and
      lengths of the synthesizer are computed on them, bit for bit as the
      browser does, and [clamp01] is checked on them as well. *)

From Stdlib Require Import String Ascii.
From Stdlib Require Import ZArith QArith Qround Qminmax Qabs Lia Lqa List Bool.
From Stdlib Require Import Floats.
From Stdlib Require Import DecimalString.
Import ListNotations.

Set Warnings "-inexact-float".

Open Scope Q_scope.

(** ** Rationals: the strict boolean comparison *)

Definition Qltb (x y : Q) : bool := negb (Qle_bool y x).

(** ** JavaScript numbers *)

Module JS.

Inductive number : Type :=
| NaN : number
| PInf : number
| NInf : number
| Fin : Q -> number.

(** [Number.isFinite] *)
Definition isFinite (x : number) : bool :=
  match x with
  | Fin _ => true
  | _ => false
  end.

Definition neg (x : number) : number :=
  match x with
  | NaN => NaN
  | PInf => NInf
  | NInf => PInf
  | Fin q => Fin (- q)
  end.

(** An infinity of the sign of [q]; [0 * Infinity] is [NaN]. *)
Definition scale_inf (positive : bool) (q : Q) : number :=
  if Qltb 0 q then (if positive then PInf else NInf)
  else if Qltb q 0 then (if positive then NInf else PInf)
  else NaN.

Definition add (x y : number) : number :=
  match x, y with
  | NaN, _ | _, NaN => NaN
  | PInf, NInf | NInf, PInf => NaN
  | PInf, _ | _, PInf => PInf
  | NInf, _ | _, NInf => NInf
  | Fin p, Fin q => Fin (p + q)
  end.

Definition sub (x y : number) : number := add x (neg y).

Definition mul (x y : number) : number :=
  match x, y with
  | NaN, _ | _, NaN => NaN
  | PInf, PInf | NInf, NInf => PInf
  | PInf, NInf | NInf, PInf => NInf
  | PInf, Fin q | Fin q, PInf => scale_inf true q
  | NInf, Fin q | Fin q, NInf => scale_inf false q
  | Fin p, Fin q => Fin (p * q)
  end.

(** Division; a zero divisor is read as [+0]. *)
Definition div (x y : number) : number :=
  match x, y with
  | NaN, _ | _, NaN => NaN
  | (PInf | NInf), (PInf | NInf) => NaN
  | PInf, Fin q => if Qltb q 0 then NInf else PInf
  | NInf, Fin q => if Qltb q 0 then PInf else NInf
  | Fin _, (PInf | NInf) => Fin 0
  | Fin p, Fin q =>
      if Qeq_bool q 0 then scale_inf true p else Fin (p / q)
  end.

(** The relational operator [<]: false as soon as an operand is [NaN]. *)
Definition lt (x y : number) : bool :=
  match x, y with
  | NaN, _ | _, NaN => false
  | _, NInf => false
  | NInf, _ => true
  | PInf, _ => false
  | _, PInf => true
  | Fin p, Fin q => Qltb p q
  end.

(** [Math.min] and [Math.max] of two arguments. *)
Definition min (x y : number) : number :=
  match x, y with
  | NaN, _ | _, NaN => NaN
  | NInf, _ | _, NInf => NInf
  | PInf, z | z, PInf => z
  | Fin p, Fin q => Fin (if Qle_bool p q then p else q)
  end.

Definition max (x y : number) : number :=
  match x, y with
  | NaN, _ | _, NaN => NaN
  | PInf, _ | _, PInf => PInf
  | NInf, z | z, NInf => z
  | Fin p, Fin q => Fin (if Qle_bool p q then q else p)
  end.

(** Truncation toward zero of a finite value (the integer part used by
    [ToInt16], [ToUint32] and friends). *)
Definition truncate (q : Q) : Z := Z.quot (Qnum q) (Zpos (Qden q)).

End JS.

Declare Scope js_scope.
Delimit Scope js_scope with js.
Infix "+" := JS.add : js_scope.
Infix "-" := JS.sub : js_scope.
Infix "*" := JS.mul : js_scope.
Infix "/" := JS.div : js_scope.

(** ** The procedural animator ([AvatarCanvas.tsx]) *)

Module Animator.

Inductive CameraAngle : Type :=
| front
| threeQuarterLeft
| threeQuarterRight
| closeUp
| wide.

Record EmotionState : Type := mkEmotion {
  happy : JS.number;
  sad : JS.number;
  angry : JS.number;
  surprised : JS.number;
  neutral : JS.number
}.

(** [const clamp01 = (value) => Math.max(0, Math.min(1, value))] *)
Definition clamp01 (value : JS.number) : JS.number :=
  JS.max (JS.Fin 0) (JS.min (JS.Fin 1) value).

(** The first two lines of [drawFacialFeatures]. *)
Definition mouthOpenBase (audioLevel : JS.number) (emotions : EmotionState) : JS.number :=
  (audioLevel * (JS.Fin 0.65 + surprised emotions / JS.Fin 180))%js.

Definition mouthOpen (audioLevel : JS.number) (emotions : EmotionState) : JS.number :=
  clamp01 (mouthOpenBase audioLevel emotions
           + (happy emotions - sad emotions) / JS.Fin 400)%js.

(** [computeCameraOffset]: the preset table, with [front] as the [default]
    branch of the [switch]. *)
Record CameraOffset : Type := mkCamera {
  cam_x : Q;
  cam_y : Q;
  cam_scale : Q
}.

Definition computeCameraOffset (angle : CameraAngle) : CameraOffset :=
  match angle with
  | threeQuarterLeft => {| cam_x := -30; cam_y := 0.52; cam_scale := 1.02 |}
  | threeQuarterRight => {| cam_x := 30; cam_y := 0.52; cam_scale := 1.02 |}
  | closeUp => {| cam_x := 0; cam_y := 0.45; cam_scale := 1.18 |}
  | wide => {| cam_x := 0; cam_y := 0.58; cam_scale := 0.92 |}
  | _ => {| cam_x := 0; cam_y := 0.52; cam_scale := 1 |}
  end.

(** *** The blink state machine of [render] *)

(** [blinkStateRef.current] *)
Record BlinkState : Type := mkBlink {
  closing : bool;
  openness : Q;
  target : Q
}.

(** What one animation frame reads from its environment:
    [performance.now()] and [Math.random()]. *)
Record Frame : Type := mkFrame {
  now : Q;
  random : Q
}.

(** The mutable state that survives from one frame to the next: the blink
    record and the closure variable [lastBlinkTime]. *)
Record RenderState : Type := mkRender {
  blinkState : BlinkState;
  lastBlinkTime : Q
}.

(** [if (elapsed > 2800 + Math.random() * 2000) { closing = true;
    target = 0; lastBlinkTime = now }] *)
Definition scheduleBlink (f : Frame) (st : RenderState) : RenderState :=
  let elapsed := now f - lastBlinkTime st in
  if Qltb (2800 + random f * 2000) elapsed then
    {| blinkState := {| closing := true;
                        openness := openness (blinkState st);
                        target := 0 |};
       lastBlinkTime := now f |}
  else st.

(** The [if (blinkState.closing) ... else if (openness < target) ...]
    statement. *)
Definition advanceBlink (b : BlinkState) : BlinkState :=
  if closing b then
    let o := openness b - 0.15 in
    if Qle_bool o 0 then {| closing := false; openness := 0; target := 1 |}
    else {| closing := true; openness := o; target := target b |}
  else if Qltb (openness b) (target b) then
    let o := openness b + 0.12 in
    if Qle_bool 1 o then {| closing := false; openness := 1; target := target b |}
    else {| closing := false; openness := o; target := target b |}
  else b.

(** The state part of one call of [render]. *)
Definition render (f : Frame) (st : RenderState) : RenderState :=
  let st1 := scheduleBlink f st in
  {| blinkState := advanceBlink (blinkState st1);
     lastBlinkTime := lastBlinkTime st1 |}.

(** Any number of frames, one [render] per frame. *)
Fixpoint renderFrames (fs : list Frame) (st : RenderState) : RenderState :=
  match fs with
  | [] => st
  | f :: fs' => renderFrames fs' (render f st)
  end.

(** The state [useRef] and [let lastBlinkTime = performance.now()] create. *)
Definition initialBlink : BlinkState :=
  {| closing := false; openness := 1; target := 1 |}.

End Animator.

(** ** Completions: normal return or a thrown exception *)

Inductive completion (A : Type) : Type :=
| Normal (a : A)
| Throw (msg : string).

Arguments Normal {A} a.
Arguments Throw {A} msg.

Definition bind {A B : Type} (c : completion A) (k : A -> completion B) : completion B :=
  match c with
  | Normal a => k a
  | Throw msg => Throw msg
  end.

(** [try { body } catch (e) { handler(e) }] *)
Definition tryCatch {A : Type} (body : completion A) (handler : string -> completion A)
  : completion A :=
  match body with
  | Normal a => Normal a
  | Throw msg => handler msg
  end.

Declare Scope completion_scope.
Delimit Scope completion_scope with completion.
Notation "x <- c ;; k" := (bind c (fun x => k))
  (at level 61, c at next level, right associativity) : completion_scope.

(** ** The audio engine ([useAudioEngine.ts]): transport and teardown *)

Module AudioEngine.

Inductive SourceType : Type := upload | tts | video.

Record AudioSourceMeta : Type := mkMeta {
  meta_type : SourceType;
  meta_label : string;
  meta_duration : JS.number;
  meta_url : string
}.

(** The part of the [HTMLAudioElement] the transport controls touch. *)
Record MediaElement : Type := mkMedia {
  src : option string;
  paused : bool;
  currentTime : JS.number
}.

(** [audio.pause()], [audio.removeAttribute("src")], [audio.load()] and the
    assignment [audio.currentTime = value] (the load algorithm resets the
    element: paused, playback position 0). *)
Definition pause (a : MediaElement) : MediaElement :=
  {| src := src a; paused := true; currentTime := currentTime a |}.

Definition removeSrc (a : MediaElement) : MediaElement :=
  {| src := None; paused := paused a; currentTime := currentTime a |}.

Definition load (a : MediaElement) : MediaElement :=
  {| src := src a; paused := true; currentTime := JS.Fin 0 |}.

Definition setCurrentTime (value : JS.number) (a : MediaElement) : MediaElement :=
  {| src := src a; paused := paused a; currentTime := value |}.

(** The hook's React state and refs, and, from the browser, the source nodes
    still connected to the graph and the animation-frame requests still
    pending. *)
Record Engine : Type := mkEngine {
  audioLevel : JS.number;
  isPlaying : bool;
  duration : JS.number;
  currentTimeState : JS.number;
  error : option string;
  sourceMeta : option AudioSourceMeta;
  audioElementRef : option MediaElement;
  sourceNodeRef : option nat;
  animationFrameRef : Z;
  connectedNodes : list nat;
  pendingFrames : list Z
}.

Definition setAudioLevel (v : JS.number) (e : Engine) : Engine :=
  mkEngine v (isPlaying e) (duration e) (currentTimeState e) (error e) (sourceMeta e)
    (audioElementRef e) (sourceNodeRef e) (animationFrameRef e) (connectedNodes e)
    (pendingFrames e).

Definition setSourceMeta (m : option AudioSourceMeta) (e : Engine) : Engine :=
  mkEngine (audioLevel e) (isPlaying e) (duration e) (currentTimeState e) (error e) m
    (audioElementRef e) (sourceNodeRef e) (animationFrameRef e) (connectedNodes e)
    (pendingFrames e).

Definition setAudioElement (a : option MediaElement) (e : Engine) : Engine :=
  mkEngine (audioLevel e) (isPlaying e) (duration e) (currentTimeState e) (error e)
    (sourceMeta e) a (sourceNodeRef e) (animationFrameRef e) (connectedNodes e)
    (pendingFrames e).

Definition setSourceNode (n : option nat) (e : Engine) : Engine :=
  mkEngine (audioLevel e) (isPlaying e) (duration e) (currentTimeState e) (error e)
    (sourceMeta e) (audioElementRef e) n (animationFrameRef e) (connectedNodes e)
    (pendingFrames e).

Definition setAnimationFrame (h : Z) (e : Engine) : Engine :=
  mkEngine (audioLevel e) (isPlaying e) (duration e) (currentTimeState e) (error e)
    (sourceMeta e) (audioElementRef e) (sourceNodeRef e) h (connectedNodes e)
    (pendingFrames e).

Definition setConnectedNodes (l : list nat) (e : Engine) : Engine :=
  mkEngine (audioLevel e) (isPlaying e) (duration e) (currentTimeState e) (error e)
    (sourceMeta e) (audioElementRef e) (sourceNodeRef e) (animationFrameRef e) l
    (pendingFrames e).

Definition setPendingFrames (l : list Z) (e : Engine) : Engine :=
  mkEngine (audioLevel e) (isPlaying e) (duration e) (currentTimeState e) (error e)
    (sourceMeta e) (audioElementRef e) (sourceNodeRef e) (animationFrameRef e)
    (connectedNodes e) l.

(** The state of a freshly mounted hook. *)
Definition initialEngine : Engine :=
  mkEngine (JS.Fin 0) false (JS.Fin 0) (JS.Fin 0) None None None None 0%Z [] [].

(** [cancelAnimationFrame(handle)] *)
Definition cancelAnimationFrame (h : Z) (e : Engine) : Engine :=
  setPendingFrames (filter (fun h' => negb (Z.eqb h' h)) (pendingFrames e)) e.

Section Browser.

(** Whether [disconnect()] throws on a given source node is up to the
    browser. *)
Variable disconnectThrows : nat -> bool.

Definition disconnect (node : nat) (e : Engine) : completion Engine :=
  if disconnectThrows node then Throw "InvalidAccessError"
  else Normal (setConnectedNodes
                 (filter (fun n => negb (Nat.eqb n node)) (connectedNodes e)) e).

Definition cleanupSource (e : Engine) : completion Engine :=
  (e1 <- match sourceNodeRef e with
         | Some node =>
             e' <- tryCatch (disconnect node e) (fun _ => Normal e) ;;
             Normal (setSourceNode None e')
         | None => Normal e
         end ;;
   e2 <- (if negb (Z.eqb (animationFrameRef e1) 0)
          then Normal (setAnimationFrame 0 (cancelAnimationFrame (animationFrameRef e1) e1))
          else Normal e1) ;;
   Normal (setAudioLevel (JS.Fin 0) e2))%completion.

Definition release (e : Engine) : completion Engine :=
  (e1 <- cleanupSource e ;;
   let e2 := setSourceMeta None e1 in
   match audioElementRef e2 with
   | Some audio => Normal (setAudioElement (Some (load (removeSrc (pause audio)))) e2)
   | None => Normal e2
   end)%completion.

End Browser.

(** [seek] *)
Definition seek (value : JS.number) (e : Engine) : completion Engine :=
  match audioElementRef e with
  | None => Normal e
  | Some audio =>
      if negb (JS.isFinite value) then Normal e
      else Normal (setAudioElement (Some (setCurrentTime value audio)) e)
  end.

(** The playback position a caller can observe. *)
Definition playbackPosition (e : Engine) : option JS.number :=
  option_map currentTime (audioElementRef e).

End AudioEngine.

(** ** The WAV encoder (the worker script of [createWavWorker]) *)

Module Wav.

(** A [DataView] over an [ArrayBuffer]: its bytes, each in [0, 255]. *)
Definition DataView : Type := list Z.

Definition newArrayBuffer (byteLength : nat) : DataView := repeat 0%Z byteLength.

(** Stores [bytes] from [offset] on; a store that does not fit throws a
    [RangeError], as every [DataView] setter does. *)
Definition store (view : DataView) (offset : nat) (bytes : list Z) : completion DataView :=
  if (offset + length bytes <=? length view)%nat
  then Normal (firstn offset view ++ bytes ++ skipn (offset + length bytes) view)
  else Throw "RangeError".

(** The [k]-th byte of [value] in little-endian order, taken modulo 2^8 as
    the integer conversions of the setters do (two's complement for a negative
    value). *)
Definition byteOf (k : Z) (value : Z) : Z := ((value / 2 ^ (8 * k)) mod 256)%Z.

Definition le16 (value : Z) : list Z := [byteOf 0 value; byteOf 1 value].

Definition le32 (value : Z) : list Z :=
  [byteOf 0 value; byteOf 1 value; byteOf 2 value; byteOf 3 value].

Definition setUint8 (view : DataView) (offset : nat) (value : Z) : completion DataView :=
  store view offset [byteOf 0 value].

(** [setUint16], [setUint32] and [setInt16] with [littleEndian = true]. *)
Definition setUint16 (view : DataView) (offset : nat) (value : Z) : completion DataView :=
  store view offset (le16 value).

Definition setUint32 (view : DataView) (offset : nat) (value : Z) : completion DataView :=
  store view offset (le32 value).

(** The integer a setter extracts from a [number]: [NaN] and the infinities
    become 0, a finite value is truncated toward zero. *)
Definition toInteger (x : JS.number) : Z :=
  match x with
  | JS.Fin q => JS.truncate q
  | _ => 0%Z
  end.

Definition setInt16 (view : DataView) (offset : nat) (value : JS.number) : completion DataView :=
  store view offset (le16 (toInteger value)).

Definition charCode (c : ascii) : Z := Z.of_nat (nat_of_ascii c).

(** [writeString]: one [setUint8] per character, at [offset + i]. *)
Fixpoint writeString (view : DataView) (offset : nat) (s : string) : completion DataView :=
  match s with
  | EmptyString => Normal view
  | String c rest =>
      (view' <- setUint8 view offset (charCode c) ;;
       writeString view' (S offset) rest)%completion
  end.

(** The value [floatTo16BitPCM] hands to [setInt16] for one sample:
    [s = Math.max(-1, Math.min(1, input[i]))], then
    [s < 0 ? s * 0x8000 : s * 0x7fff]. *)
Definition scaleSample (x : JS.number) : JS.number :=
  let s := JS.max (JS.Fin (-1)) (JS.min (JS.Fin 1) x) in
  if JS.lt s (JS.Fin 0) then (s * JS.Fin 32768)%js else (s * JS.Fin 32767)%js.

(** The loop of [floatTo16BitPCM], from index [i] on. *)
Fixpoint floatTo16BitPCM_from (i : nat) (output : DataView) (offset : nat)
  (input : list JS.number) : completion DataView :=
  match input with
  | [] => Normal output
  | x :: rest =>
      (output' <- setInt16 output (offset + i * 2) (scaleSample x) ;;
       floatTo16BitPCM_from (S i) output' offset rest)%completion
  end.

Definition floatTo16BitPCM (output : DataView) (offset : nat) (input : list JS.number)
  : completion DataView :=
  floatTo16BitPCM_from 0 output offset input.

(** [encodeWav(samples, sampleRate)], for an integral [sampleRate]. *)
Definition encodeWav (samples : list JS.number) (sampleRate : Z) : completion DataView :=
  let bytesPerSample := 2%nat in
  let blockAlign := bytesPerSample in
  let buffer := newArrayBuffer (44 + length samples * bytesPerSample) in
  (view <- writeString buffer 0 "RIFF" ;;
   view <- setUint32 view 4 (36 + Z.of_nat (length samples * bytesPerSample)) ;;
   view <- writeString view 8 "WAVE" ;;
   view <- writeString view 12 "fmt " ;;
   view <- setUint32 view 16 16 ;;
   view <- setUint16 view 20 1 ;;
   view <- setUint16 view 22 1 ;;
   view <- setUint32 view 24 sampleRate ;;
   view <- setUint32 view 28 (sampleRate * Z.of_nat blockAlign) ;;
   view <- setUint16 view 32 (Z.of_nat blockAlign) ;;
   view <- setUint16 view 34 (Z.of_nat (bytesPerSample * 8)) ;;
   view <- writeString view 36 "data" ;;
   view <- setUint32 view 40 (Z.of_nat (length samples * bytesPerSample)) ;;
   floatTo16BitPCM view 44 samples)%completion.

(** *** Reading a container back *)

(** [getUint8], [getUint16], [getUint32] and [getInt16] of a [DataView], with
    [littleEndian = true]; [None] stands for the [RangeError] of a read
    outside the buffer. *)

Definition getUint8 (view : DataView) (offset : nat) : option Z := nth_error view offset.

Definition getUint16 (view : DataView) (offset : nat) : option Z :=
  match getUint8 view offset, getUint8 view (offset + 1) with
  | Some b0, Some b1 => Some (b0 + 256 * b1)%Z
  | _, _ => None
  end.

Definition getUint32 (view : DataView) (offset : nat) : option Z :=
  match getUint16 view offset, getUint16 view (offset + 2) with
  | Some lo, Some hi => Some (lo + 65536 * hi)%Z
  | _, _ => None
  end.

Definition getInt16 (view : DataView) (offset : nat) : option Z :=
  match getUint16 view offset with
  | Some u => Some (if (u <? 32768)%Z then u else (u - 65536)%Z)
  | None => None
  end.

Fixpoint hasString (view : DataView) (offset : nat) (s : string) : bool :=
  match s with
  | EmptyString => true
  | String c rest =>
      match getUint8 view offset with
      | Some b => Z.eqb b (charCode c) && hasString view (S offset) rest
      | None => false
      end
  end.

(** The header fields of a 44-byte canonical header. *)
Record Header : Type := mkHeader {
  riffChunkSize : Z;
  fmtChunkSize : Z;
  audioFormat : Z;
  numChannels : Z;
  sampleRateField : Z;
  byteRate : Z;
  blockAlignField : Z;
  bitsPerSample : Z;
  dataChunkSize : Z
}.

Definition readHeader (view : DataView) : option Header :=
  if hasString view 0 "RIFF" && hasString view 8 "WAVE"
     && hasString view 12 "fmt " && hasString view 36 "data"
  then
    match getUint32 view 4, getUint32 view 16, getUint16 view 20, getUint16 view 22,
          getUint32 view 24, getUint32 view 28, getUint16 view 32, getUint16 view 34,
          getUint32 view 40 with
    | Some a, Some b, Some c, Some d, Some e, Some f, Some g, Some h, Some i =>
        Some (mkHeader a b c d e f g h i)
    | _, _, _, _, _, _, _, _, _ => None
    end
  else None.

(** Modelled from the spec: the repository has no WAV reader (the browser's
    media element decodes the container), so parsing a container back follows
    the spec's description of the format: a canonical 44-byte header of an
    uncompressed linear-PCM file, mono, 16-bit signed little-endian samples;
    a stored sample [v] denotes [v / 32768]. *)
Fixpoint readSamples (view : DataView) (offset : nat) (count : nat) : option (list Q) :=
  match count with
  | O => Some []
  | S count' =>
      match getInt16 view offset, readSamples view (offset + 2) count' with
      | Some v, Some rest => Some ((v # 32768) :: rest)
      | _, _ => None
      end
  end.

(** Modelled from the spec: the reader of the container ([parseWav] has no
    counterpart in the repository); it returns the sample rate and the
    decoded samples. *)
Definition parseWav (view : DataView) : option (Z * list Q) :=
  match readHeader view with
  | Some h =>
      if Z.eqb (audioFormat h) 1 && Z.eqb (numChannels h) 1
         && Z.eqb (bitsPerSample h) 16
         && Nat.eqb (44 + Z.to_nat (dataChunkSize h)) (length view)
      then
        match readSamples view 44 (Z.to_nat (dataChunkSize h) / 2) with
        | Some out => Some (sampleRateField h, out)
        | None => None
        end
      else None
  | None => None
  end.

(** *** The layout [encodeWav] produces *)

Definition chars (s : string) : list Z := map charCode (list_ascii_of_string s).

(** The 44 header bytes for [n] samples at [sampleRate]. *)
Definition header (n : nat) (sampleRate : Z) : list Z :=
  chars "RIFF" ++ le32 (36 + Z.of_nat (n * 2)) ++ chars "WAVE"
  ++ chars "fmt " ++ le32 16 ++ le16 1 ++ le16 1
  ++ le32 sampleRate ++ le32 (sampleRate * 2) ++ le16 2 ++ le16 16
  ++ chars "data" ++ le32 (Z.of_nat (n * 2)).

(** The sample bytes: two per sample, little-endian. *)
Definition pcm (input : list JS.number) : list Z :=
  flat_map (fun x => le16 (toInteger (scaleSample x))) input.

(** The value of a finite sample once clamped to [[-1, 1]]. *)
Definition clampUnit (s : Q) : Q := Qmax (-1) (Qmin 1 s).

(** The sample a reader recovers from what [floatTo16BitPCM] stored for [x]. *)
Definition storedInt16 (x : JS.number) : Z :=
  let u := (toInteger (scaleSample x) mod 65536)%Z in
  if (u <? 32768)%Z then u else (u - 65536)%Z.

Definition decoded (x : JS.number) : Q := storedInt16 x # 32768.

End Wav.

(** ** Binary64 arithmetic, as the synthesizer uses it

    The durations and lengths of [synthesizeSpeech] are computed on the
    kernel's primitive floats, which are the binary64 numbers of
    JavaScript. *)

Module F64.

(** The [number] of an integer (the length of an array). *)
Definition ofZ (z : Z) : float := SF2Prim (binary_normalize prec emax z 0 false).

(** [Math.max] and [Math.min] of two arguments: [NaN] as soon as an argument
    is [NaN], and [-0] below [+0]. *)
Definition max (a b : float) : float :=
  if is_nan a || is_nan b then nan
  else if (a <? b)%float then b
  else if (b <? a)%float then a
  else if get_sign a then b else a.

Definition min (a b : float) : float :=
  if is_nan a || is_nan b then nan
  else if (a <? b)%float then a
  else if (b <? a)%float then b
  else if get_sign a then a else b.

(** [Math.floor] of a finite value, as an integer. *)
Definition floor (f : float) : option Z :=
  match Prim2SF f with
  | S754_zero _ => Some 0%Z
  | S754_finite s m e => Some (Z.shiftl (cond_Zopp s (Zpos m)) e)
  | _ => None
  end.

(** The value a float denotes. *)
Definition toNumber (f : float) : JS.number :=
  match Prim2SF f with
  | S754_nan => JS.NaN
  | S754_infinity s => if s then JS.NInf else JS.PInf
  | S754_zero _ => JS.Fin 0
  | S754_finite s m e => JS.Fin (inject_Z (cond_Zopp s (Zpos m)) * 2 ^ e)
  end.

End F64.

(** ** The mouth openness on binary64 numbers *)

Module Animator64.

(** [clamp01] and the first two lines of [drawFacialFeatures], on the
    numbers the browser computes with. *)
Definition clamp01 (value : float) : float := F64.max 0 (F64.min 1 value).

Definition mouthOpenBase (audioLevel surprised : float) : float :=
  (audioLevel * (0.65 + surprised / 180))%float.

Definition mouthOpenArgument (audioLevel happy sad surprised : float) : float :=
  (mouthOpenBase audioLevel surprised + (happy - sad) / 400)%float.

Definition mouthOpen (audioLevel happy sad surprised : float) : float :=
  clamp01 (mouthOpenArgument audioLevel happy sad surprised).

End Animator64.

(** ** The speech synthesizer ([synthesizeSpeech] in [useAudioEngine.ts]) *)

Module Synth.

(** A JavaScript string: its UTF-16 code units. *)
Definition jsstring : Type := list Z.

Definition ofString (s : string) : jsstring := map Wav.charCode (list_ascii_of_string s).

(** The class [\s] of a regular expression: white space and line
    terminators. *)
Definition isWhiteSpace (c : Z) : bool :=
  ((9 <=? c) && (c <=? 13) || (c =? 32) || (c =? 160) || (c =? 5760)
   || (8192 <=? c) && (c <=? 8202) || (c =? 8232) || (c =? 8233) || (c =? 8239)
   || (c =? 8287) || (c =? 12288) || (c =? 65279))%Z.

(** What [/[^a-z ]/gi] leaves in place: the ASCII letters of either case and
    the space (without the [u] flag no other code unit folds into [a-z]). *)
Definition isLetter (c : Z) : bool :=
  ((65 <=? c) && (c <=? 90) || (97 <=? c) && (c <=? 122))%Z.

Definition isPhoneme (c : Z) : bool := isLetter c || (c =? 32)%Z.

(** [text.split(/\s+/)]: the pieces between maximal runs of white space;
    [current] is the piece being read, in reverse, and [inSeparator] tells
    that the previous code unit was white space. *)
Fixpoint splitWhiteSpace_from (current : jsstring) (inSeparator : bool) (text : jsstring)
  : list jsstring :=
  match text with
  | [] => [rev current]
  | c :: rest =>
      if isWhiteSpace c then
        if inSeparator then splitWhiteSpace_from [] true rest
        else rev current :: splitWhiteSpace_from [] true rest
      else splitWhiteSpace_from (c :: current) false rest
  end.

Definition splitWhiteSpace (text : jsstring) : list jsstring :=
  splitWhiteSpace_from [] false text.

(** [Boolean(s)] for a string: false exactly for the empty one. *)
Definition truthy (s : jsstring) : bool :=
  match s with
  | [] => false
  | _ :: _ => true
  end.

Definition words (text : jsstring) : list jsstring := filter truthy (splitWhiteSpace text).

(** [text.replace(/[^a-z ]/gi, "").split("")] *)
Definition phonemes (text : jsstring) : jsstring := filter isPhoneme text.

Definition sampleRate : float := 48000%float.

(** [array.length] as a [number]. *)
Definition lengthOf {A : Type} (l : list A) : float := F64.ofZ (Z.of_nat (length l)).

Definition baseDuration (text : jsstring) : float :=
  F64.max (lengthOf (phonemes text) * 0.055)%float 0.9%float.

Definition fullDuration (text : jsstring) : float :=
  (baseDuration text + lengthOf (words text) * 0.08)%float.

(** [Math.floor(x)] where an array length or a loop bound is expected; a
    value that is not finite has no floor (the typed-array constructor would
    throw on it) and is read as 0 here. *)
Definition floorLength (x : float) : Z :=
  match F64.floor x with
  | Some n => n
  | None => 0%Z
  end.

Definition bufferLength (text : jsstring) : Z :=
  floorLength (sampleRate * fullDuration text)%float.

(** Per phoneme: [phonemeDuration], [freq] and [length]. *)
Definition phonemeDuration (ch : Z) : float :=
  F64.max 0.04%float (if (ch =? 32)%Z then 0.08%float else 0.06%float).

Definition frequency (ch : Z) : Z := (160 + Z.rem (ch * 13) 120)%Z.

Definition burstLength (ch : Z) : Z := floorLength (sampleRate * phonemeDuration ch)%float.

(** [Math.floor(sampleRate * 0.015)], the overlap of successive bursts. *)
Definition overlap : Z := floorLength (sampleRate * 0.015)%float.

(** The [Float32Array] with the log of the indices the loop assigned to
    (latest first). *)
Record Buffer : Type := mkBuffer {
  samples : list float;
  stores : list Z
}.

(** [samples[i] += v]: an index outside a typed array is dropped by the
    array, silently (the rounding of the sum to 32 bits is left out). *)
Fixpoint addAt (l : list float) (i : nat) (v : float) : list float :=
  match l, i with
  | [], _ => []
  | x :: l', O => (x + v)%float :: l'
  | x :: l', S i' => x :: addAt l' i' v
  end.

Definition addSample (i : Z) (v : float) (b : Buffer) : Buffer :=
  {| samples := if (0 <=? i)%Z then addAt (samples b) (Z.to_nat i) v else samples b;
     stores := i :: stores b |}.

Record Loop : Type := mkLoop {
  buffer : Buffer;
  position : Z
}.

Section Waveform.

(** [burstSample freq n length]: the value
    [(fundamental + harmonic + third) * envelope * 0.4] the inner loop adds at
    step [n] of a burst; it is built from [Math.sin] and plays no part in
    where the loop writes. *)
Variable burstSample : Z -> Z -> Z -> float.

(** The inner loop [for (n = 0; n < length && position + n < samples.length;
    n += 1)], with [remaining = length - n] iterations left. *)
Fixpoint writeBurst (remaining : nat) (n : Z) (freq len pos : Z) (b : Buffer) : Buffer :=
  match remaining with
  | O => b
  | S remaining' =>
      if (pos + n <? Z.of_nat (length (samples b)))%Z
      then writeBurst remaining' (n + 1)%Z freq len pos
             (addSample (pos + n)%Z (burstSample freq n len) b)
      else b
  end.

(** One iteration of the outer loop. *)
Definition phonemeStep (st : Loop) (ch : Z) : Loop :=
  let len := burstLength ch in
  {| buffer := writeBurst (Z.to_nat len) 0 (frequency ch) len (position st) (buffer st);
     position := (position st + (len - overlap))%Z |}.

(** [new Float32Array(bufferLength)] and [let position = 0]. *)
Definition initialLoop (text : jsstring) : Loop :=
  {| buffer := {| samples := repeat 0%float (Z.to_nat (bufferLength text)); stores := [] |};
     position := 0 |}.

Definition synthesisLoop (text : jsstring) : Loop :=
  fold_left phonemeStep (phonemes text) (initialLoop text).

(** What [synthesizeSpeech] returns: the encoded container and the reported
    duration (the object URL is a handle on the same bytes). *)
Record Speech : Type := mkSpeech {
  blob : completion Wav.DataView;
  speechDuration : float
}.

Definition synthesizeSpeech (text : jsstring) : Speech :=
  {| blob := Wav.encodeWav (map F64.toNumber (samples (buffer (synthesisLoop text)))) 48000;
     speechDuration := fullDuration text |}.

End Waveform.

(** As the spec words it: the total duration is the sum of the per-phoneme
    durations plus 0.08 s per word. *)
Definition specDuration (text : jsstring) : float :=
  (fold_left (fun total ch => total + phonemeDuration ch) (phonemes text) 0
   + 0.08 * lengthOf (words text))%float.

(** Counting, independently of [split] and [replace]: a word starts at each
    code unit that is not white space and follows white space or the start of
    the text. *)
Fixpoint countWordStarts (afterSpace : bool) (text : jsstring) : nat :=
  match text with
  | [] => O
  | c :: rest =>
      if isWhiteSpace c then countWordStarts true rest
      else (if afterSpace then 1 else 0)%nat + countWordStarts false rest
  end.

Definition wordCount (text : jsstring) : nat := countWordStarts true text.

Definition phonemeCount (text : jsstring) : nat :=
  fold_right (fun c k => if isPhoneme c then S k else k) O text.

(** The indices a burst of [len] samples at [pos] is allowed to touch in a
    buffer of [L] samples, and the indices of a whole run of phonemes. *)
Definition burstIndices (L pos len : Z) : list Z :=
  map (fun k => (pos + Z.of_nat k)%Z) (seq 0 (Z.to_nat (Z.min len (L - pos)))).

Fixpoint expectedStores (L pos : Z) (chs : jsstring) : list Z :=
  match chs with
  | [] => []
  | ch :: rest =>
      burstIndices L pos (burstLength ch)
      ++ expectedStores L (pos + (burstLength ch - overlap))%Z rest
  end.

(** How many samples the loop adds to, and how many the bursts would need. *)
Fixpoint storeCount (L pos : Z) (chs : jsstring) : Z :=
  match chs with
  | [] => 0%Z
  | ch :: rest =>
      (Z.max 0 (Z.min (burstLength ch) (L - pos))
       + storeCount L (pos + (burstLength ch - overlap)) rest)%Z
  end.

Definition summedBurstLengths (chs : jsstring) : Z :=
  fold_right Z.add 0%Z (map burstLength chs).

(** Two texts used below: twenty letters in one word, and two letters
    seventeen spaces apart. *)
Definition twentyLetters : jsstring := ofString "aaaaaaaaaaaaaaaaaaaa".
Definition spacedOut : jsstring := ofString "a                 a".

End Synth.

(** ** The export panel: [startRecording] and [stopRecording] *)

Module Recorder.

Inductive ExportStatus : Type := idle | recording | processing | complete | error.

Inductive Track : Type :=
| VideoTrack (id : nat)
| AudioTrack (id : nat).

Definition MediaStream : Type := list Track.

Definition isVideo (t : Track) : bool :=
  match t with VideoTrack _ => true | AudioTrack _ => false end.

Definition isAudio (t : Track) : bool := negb (isVideo t).

Definition getVideoTracks (s : MediaStream) : list Track := filter isVideo s.
Definition getAudioTracks (s : MediaStream) : list Track := filter isAudio s.

Inductive RecordingState : Type := inactive | active.

Record MediaRecorder : Type := mkRecorder {
  stream : MediaStream;
  mimeType : string;
  videoBitsPerSecond : Z;
  state : RecordingState
}.

(** The component's React state and refs; [canvas] is [canvasRef.current],
    given by the stream [captureStream(60)] returns for it. *)
Record Panel : Type := mkPanel {
  canvas : option MediaStream;
  status : ExportStatus;
  message : option string;
  downloadReady : bool;
  downloadSize : option Z;
  recorderRef : option MediaRecorder;
  exportChunks : list Z;
  downloadUrl : option string;
  lastMime : string
}.

Definition report (s : ExportStatus) (msg : string) (p : Panel) : Panel :=
  mkPanel (canvas p) s (Some msg) (downloadReady p) (downloadSize p) (recorderRef p)
    (exportChunks p) (downloadUrl p) (lastMime p).

Definition setMessage (msg : string) (p : Panel) : Panel :=
  mkPanel (canvas p) (status p) (Some msg) (downloadReady p) (downloadSize p)
    (recorderRef p) (exportChunks p) (downloadUrl p) (lastMime p).

Definition clearDownload (p : Panel) : Panel :=
  mkPanel (canvas p) (status p) (message p) false None (recorderRef p)
    (exportChunks p) (downloadUrl p) (lastMime p).

Definition install (r : MediaRecorder) (p : Panel) : Panel :=
  mkPanel (canvas p) (status p) (message p) (downloadReady p) (downloadSize p) (Some r)
    [] (downloadUrl p) (mimeType r).

Definition dropRecorder (p : Panel) : Panel :=
  mkPanel (canvas p) (status p) (message p) (downloadReady p) (downloadSize p) None
    (exportChunks p) (downloadUrl p) (lastMime p).

Section Browser.

(** [MediaRecorder.isTypeSupported] and the audio engine's [captureStream]. *)
Variable isTypeSupported : string -> bool.
Variable captureAudioStream : option MediaStream.

(** [startRecording(mimeType)]: the function has no [await], so it runs to
    its end in one go; the recorder is entered in [recorderRef] and started
    before the status is set. *)
Definition startRecording (requested : string) (p : Panel) : Panel :=
  match canvas p with
  | None =>
      report error "Preview canvas not ready. Try again once the avatar is visible." p
  | Some canvasStream =>
      match recorderRef p with
      | Some _ => report error "Recording already in progress." p
      | None =>
          let p1 := clearDownload p in
          let combinedStream :=
            match captureAudioStream with
            | Some audioStream => getVideoTracks canvasStream ++ getAudioTracks audioStream
            | None => canvasStream
            end in
          let supportedMime :=
            if isTypeSupported requested then requested else "video/webm"%string in
          if negb (isTypeSupported supportedMime) then
            report error
              ("MediaRecorder does not support " ++ requested ++ " on this browser.")%string
              p1
          else
            let recorder := mkRecorder combinedStream supportedMime 5000000 active in
            report recording
              "Recording in progress... interact with controls or audio playback."
              (install recorder p1)
      end
  end.

(** [stopRecording]: the synchronous part; the [onstop] handler that builds
    the download runs later. *)
Definition stopRecording (p : Panel) : Panel :=
  match recorderRef p with
  | None => setMessage "No active recording." p
  | Some _ => dropRecorder p
  end.

End Browser.

End Recorder.

(** ** More of the animator: what [drawFacialFeatures] derives for drawing *)

Module Face.




(** [k] frames of the blink statement with no new blink scheduled. *)
Fixpoint advanceBlinkFrames (k : nat) (b : Animator.BlinkState) : Animator.BlinkState :=
  match k with
  | O => b
  | S k' => advanceBlinkFrames k' (Animator.advanceBlink b)
  end.

End Face.

(** ** The page component ([Home]): idle motion, gaze, the stats line and the
    random pose *)

Module Page.




Section Trigonometry.

(** [Math.sin] and [Math.cos] on finite arguments. *)
Variable sin : Q -> Q.
Variable cos : Q -> Q.




End Trigonometry.

(** *** [emotionBlend] *)

Inductive EmotionKey : Type := Happy | Sad | Angry | Surprised | Neutral.

(** [Object.entries(emotions)], in the order the state object is built in;
    the weights are finite. *)
Definition entries (happy sad angry surprised neutral : Q) : list (EmotionKey * Q) :=
  [(Happy, happy); (Sad, sad); (Angry, angry); (Surprised, surprised); (Neutral, neutral)].

(** [.sort((a, b) => b[1] - a[1])]: descending by weight; the sort of an array
    is stable, so equal weights keep their order.  [insertDesc] puts an entry
    in front of the first one that is not heavier. *)
Fixpoint insertDesc (x : EmotionKey * Q) (sorted : list (EmotionKey * Q))
  : list (EmotionKey * Q) :=
  match sorted with
  | [] => [x]
  | y :: rest => if Qltb (snd x) (snd y) then y :: insertDesc x rest else x :: y :: rest
  end.

Definition sortDesc (l : list (EmotionKey * Q)) : list (EmotionKey * Q) :=
  fold_right insertDesc [] l.

Definition labelMap (key : EmotionKey) : string :=
  match key with
  | Happy => "Happy"
  | Sad => "Sad"
  | Angry => "Angry"
  | Surprised => "Surprised"
  | Neutral => "Calm"
  end.

(** [Math.round]: the nearest integer, halves upward. *)
Definition round (q : Q) : Z := Qfloor (q + (1 # 2)).

(** The label and the number the template string of [emotionBlend] joins. *)
Definition emotionBlend (happy sad angry surprised neutral : Q) : option (string * Z) :=
  match sortDesc (entries happy sad angry surprised neutral) with
  | (key, value) :: _ => Some (labelMap key, round value)
  | [] => None
  end.

(** The first entry of a list that no other entry outweighs. *)
Fixpoint firstMax (l : list (EmotionKey * Q)) : option (EmotionKey * Q) :=
  match l with
  | [] => None
  | x :: rest =>
      match firstMax rest with
      | Some y => if Qltb (snd x) (snd y) then Some y else Some x
      | None => Some x
      end
  end.

(** *** Camera angles: the stats line, the selector and the random pose *)




(** *** [handleRandomizePose] *)




End Page.

(** ** The media controls: progress bar, level meter and [formatTime] *)

Module MediaControls.

(** [!x] for a number: true for [0] and [NaN]. *)
Definition falsy (x : JS.number) : bool :=
  match x with
  | JS.NaN => true
  | JS.Fin q => Qeq_bool q 0
  | _ => false
  end.

(** [progress]: [if (!duration) return 0; return Math.min(100, (currentTime /
    duration) * 100)] *)
Definition progress (currentTime duration : JS.number) : JS.number :=
  if falsy duration then JS.Fin 0
  else JS.min (JS.Fin 100) (currentTime / duration * JS.Fin 100)%js.

(** The width of [LevelMeter], in percent: [Math.min(100, level * 120)]. *)
Definition levelWidth (level : JS.number) : JS.number :=
  JS.min (JS.Fin 100) (level * JS.Fin 120)%js.

(** [x % y] on finite numbers, [y] not zero: the remainder has the sign of
    [x]. *)
Definition remainder (x y : Q) : Q := x - inject_Z (JS.truncate (x / y)) * y.

(** An integer printed in decimal, and [padStart(2, "0")]. *)
Definition showInt (z : Z) : string := NilZero.string_of_int (Z.to_int z).

Definition padStart2 (s : string) : string :=
  match String.length s with
  | O => "00"
  | S O => String.append "0" s
  | _ => s
  end.

(** [formatTime(value)] *)
Definition formatTime (value : JS.number) : string :=
  match value with
  | JS.Fin v =>
      if Qle_bool v 0 then "0:00"
      else
        let minutes := Qfloor (v / 60) in
        let seconds := padStart2 (showInt (Qfloor (remainder v 60))) in
        String.append (showInt minutes) (String.append ":" seconds)
  | _ => "0:00"
  end.

End MediaControls.

(** ** The text [generateSpeech] hands to the synthesizer *)

Module Generate.
Import Synth.

(** [text.trim()]: white space and line terminators are taken off both ends
    (the same code units as the class [\s]). *)
Fixpoint trimStart (text : jsstring) : jsstring :=
  match text with
  | [] => []
  | c :: rest => if isWhiteSpace c then trimStart rest else text
  end.

Definition trimEnd (text : jsstring) : jsstring := rev (trimStart (rev text)).

Definition trim (text : jsstring) : jsstring := trimEnd (trimStart text).

(** The guard of [generateSpeech]: [const trimmed = text.trim(); if
    (!trimmed) { setError(...); return null; }], then
    [synthesizeSpeech(trimmed)]: the error reported, or the text that
    reaches the synthesizer. *)
Definition generateSpeechInput (text : jsstring) : string + jsstring :=
  let trimmed := trim text in
  if negb (truthy trimmed) then inl "Enter text to generate speech."%string
  else inr trimmed.

End Generate.

(** ** The transport of the audio engine: [stop], the [loadedmetadata]
    handler and the level meter *)

Module Transport.
Import AudioEngine.

Definition setDuration (d : JS.number) (e : Engine) : Engine :=
  mkEngine (audioLevel e) (isPlaying e) d (currentTimeState e) (error e) (sourceMeta e)
    (audioElementRef e) (sourceNodeRef e) (animationFrameRef e) (connectedNodes e)
    (pendingFrames e).

(** [handleLoaded], with [audio.duration] as the element reports it:
    [const loadedDuration = audio.duration || 0]. *)
Definition handleLoaded (audioDuration : JS.number) (e : Engine) : Engine :=
  let loadedDuration :=
    if MediaControls.falsy audioDuration then JS.Fin 0 else audioDuration in
  setSourceMeta
    (option_map
       (fun prev => mkMeta (meta_type prev) (meta_label prev) loadedDuration (meta_url prev))
       (sourceMeta e))
    (setDuration loadedDuration e).

(** [stop] *)
Definition stop (e : Engine) : completion Engine :=
  match audioElementRef e with
  | None => Normal e
  | Some audio => Normal (setAudioElement (Some (setCurrentTime (JS.Fin 0) (pause audio))) e)
  end.

(** The calls a user of the hook can make in a row. *)
Inductive Command : Type :=
| Seek (value : JS.number)
| Stop
| Release
| Loaded (audioDuration : JS.number).

Section Browser.

Variable disconnectThrows : nat -> bool.

Definition step (c : Command) (e : Engine) : completion Engine :=
  match c with
  | Seek value => seek value e
  | Stop => stop e
  | Release => release disconnectThrows e
  | Loaded audioDuration => Normal (handleLoaded audioDuration e)
  end.

Fixpoint run (cs : list Command) (e : Engine) : completion Engine :=
  match cs with
  | [] => Normal e
  | c :: rest => (e' <- step c e ;; run rest e')%completion
  end.

End Browser.

(** The level [analyseLevel] computes from the analyser's time-domain data:
    [sum += sample * sample], [rms = Math.sqrt(sum / length)],
    [level = Math.min(1, Math.max(0, rms * 8))]. *)
Definition sumSquares (data : list float) : float :=
  fold_left (fun sum sample => (sum + sample * sample)%float) data 0%float.

Definition rms (data : list float) : float :=
  PrimFloat.sqrt (sumSquares data / Synth.lengthOf data).

Definition level (data : list float) : float :=
  F64.min 1 (F64.max 0 (rms data * 8)).

End Transport.

(** ** The export panel: the recorder's event handlers and [download] *)

Module RecorderEvents.
Import Recorder.

(** [s.includes(searchString)] *)
Fixpoint includes (s searchString : string) : bool :=
  if String.prefix searchString s then true
  else
    match s with
    | EmptyString => false
    | String _ rest => includes rest searchString
    end.

(** [recorder.ondataavailable]: a chunk is kept when it is not empty (a chunk
    is given by its size). *)
Definition ondataavailable (size : Z) (p : Panel) : Panel :=
  if (0 <? size)%Z then
    mkPanel (canvas p) (status p) (message p) (downloadReady p) (downloadSize p)
      (recorderRef p) (exportChunks p ++ [size]) (downloadUrl p) (lastMime p)
  else p.

(** [recorder.onerror] *)
Definition onerror (name : string) (p : Panel) : Panel :=
  dropRecorder (report error ("Recording error: " ++ name)%string p).

(** [blob.size] of [new Blob(chunks)] *)
Definition blobSize (chunks : list Z) : Z := fold_right Z.add 0%Z chunks.

Section Browser.

(** [URL.createObjectURL] of the blob made of the chunks. *)
Variable createObjectURL : list Z -> string.

(** [recorder.onstop] *)
Definition onstop (p : Panel) : Panel :=
  let blob := exportChunks p in
  mkPanel (canvas p) complete (Some "Rendering complete. Download ready!"%string)
    true (Some (blobSize blob)) (recorderRef p) (exportChunks p)
    (Some (createObjectURL blob)) (lastMime p).

End Browser.

(** The file-name extension [download] picks. *)
Definition extension (p : Panel) : string :=
  if includes (lastMime p) "mp4" then "mp4"%string else "webm"%string.

(** [download], at [Date.now() = now]: the panel afterwards and, when a
    recording is there, the link that is clicked (its [href] and its
    [download] name). *)
Definition download (now : Z) (p : Panel) : Panel * option (string * string) :=
  match downloadUrl p with
  | None => (setMessage "No recording available yet." p, None)
  | Some url =>
      (p, Some (url, ("avatar-export-" ++ MediaControls.showInt now ++ "." ++ extension p)%string))
  end.

End RecorderEvents.

(** ** Head and hands: from the page's sliders to the angles the canvas
    rotates by *)

Module Body.

Section Trigonometry.

(** [Math.sin] on finite arguments. *)
Variable sin : Q -> Q.

(** The page: [dynamicHead] and [dynamicHandEnergy], which the canvas
    receives as [headNod] and [handGesture]. *)
Definition dynamicHead (headNod audioLevel microMotion : Q) : Q :=
  headNod + sin (microMotion / 18) * (8 + audioLevel * 12).

Definition dynamicHandEnergy (handGesture audioLevel microMotion : Q) : Q :=
  handGesture + sin (microMotion / 11) * 20 + audioLevel * 50.

(** [render]: [headRotation = headNod * 0.5 + camera.x * 0.03], in degrees. *)
Definition headRotation (headNod : Q) (cameraAngle : Animator.CameraAngle) : Q :=
  headNod * 0.5 + Animator.cam_x (Animator.computeCameraOffset cameraAngle) * 0.03.





End Trigonometry.

End Body.

(** * Properties *)

(** ** Rationals *)

Lemma Qltb_true (x y : Q) : Qltb x y = true <-> x < y.
Proof.
  unfold Qltb. rewrite negb_true_iff. split.
  - intros H. apply Qnot_le_lt. intros L.
    apply Qle_bool_iff in L. congruence.
  - intros H. destruct (Qle_bool y x) eqn:E; [|reflexivity].
    apply Qle_bool_iff in E. exfalso. apply (Qlt_not_le _ _ H E).
Qed.

Lemma Qltb_false (x y : Q) : Qltb x y = false <-> y <= x.
Proof.
  unfold Qltb. rewrite negb_false_iff. apply Qle_bool_iff.
Qed.

Lemma Qle_bool_false (x y : Q) : Qle_bool x y = false <-> y < x.
Proof.
  rewrite <- Qltb_true. unfold Qltb. now rewrite negb_true_iff.
Qed.

(** Case analysis on a boolean comparison, leaving the order fact in the
    context. *)
Ltac case_Qle x y :=
  let E := fresh "E" in
  destruct (Qle_bool x y) eqn:E;
  [apply Qle_bool_iff in E | apply Qle_bool_false in E].

Ltac case_Qlt x y :=
  let E := fresh "E" in
  destruct (Qltb x y) eqn:E;
  [apply Qltb_true in E | apply Qltb_false in E].

(** ** The animator *)

Module AnimatorFacts.
Import Animator.

(** [clamp01] of a finite value is the usual clamp of the rationals. *)
Lemma clamp01_finite (x : Q) :
  exists m : Q, clamp01 (JS.Fin x) = JS.Fin m /\ m == Qmax 0 (Qmin 1 x) /\ 0 <= m <= 1.
Proof.
  unfold clamp01. cbn [JS.min JS.max].
  case_Qle 1 x.
  - exists 1. case_Qle 0 1; [|lra].
    repeat split; try reflexivity; try lra.
    rewrite (Q.min_l 1 x) by assumption. rewrite Q.max_r; lra.
  - case_Qle 0 x.
    + exists x. repeat split; try lra.
      rewrite (Q.min_r 1 x) by lra. rewrite Q.max_r; lra.
    + exists 0. repeat split; try lra.
      rewrite (Q.min_r 1 x) by lra. rewrite Q.max_l; lra.
Qed.

(** [clamp01] lets [NaN] through: the clamp property needs a number. *)
Lemma clamp01_NaN : clamp01 JS.NaN = JS.NaN.
Proof. reflexivity. Qed.

Lemma clamp01_infinities : clamp01 JS.PInf = JS.Fin 1 /\ clamp01 JS.NInf = JS.Fin 0.
Proof. split; reflexivity. Qed.

(** The argument [mouthOpen] passes to [clamp01], on finite inputs. *)
Lemma mouthOpen_argument (a h s u : Q) (e : EmotionState) :
  happy e = JS.Fin h -> sad e = JS.Fin s -> surprised e = JS.Fin u ->
  (mouthOpenBase (JS.Fin a) e + (happy e - sad e) / JS.Fin 400)%js
  = JS.Fin (a * (0.65 + u / 180) + (h + - s) / 400).
Proof.
  intros Hh Hs Hu. unfold mouthOpenBase. rewrite Hh, Hs, Hu. reflexivity.
Qed.

(** C1.  For an audio level in [[0, 1]] and non-negative (finite) weights
    [happy], [sad] and [surprised], the mouth openness the animator draws is
    the number [clamp01(audioLevel * (0.65 + surprised/180) + (happy - sad)/400)],
    and it lies in [[0, 1]]; at the boundary combination audioLevel = 1,
    surprised = 100, happy = 0, sad = 100 it is 43/45. *)
Theorem mouthOpen_clamped (a h s u : Q) (e : EmotionState) :
  0 <= a <= 1 -> 0 <= h -> 0 <= s -> 0 <= u ->
  happy e = JS.Fin h -> sad e = JS.Fin s -> surprised e = JS.Fin u ->
  exists m : Q,
    mouthOpen (JS.Fin a) e = JS.Fin m
    /\ m == Qmax 0 (Qmin 1 (a * (0.65 + u / 180) + (h - s) / 400))
    /\ 0 <= m <= 1
    /\ (a == 1 -> u == 100 -> h == 0 -> s == 100 -> m == 43 # 45).
Proof.
  intros Ha Hh Hs Hu Eh Es Eu.
  unfold mouthOpen. rewrite (mouthOpen_argument a h s u e Eh Es Eu).
  destruct (clamp01_finite (a * (0.65 + u / 180) + (h + - s) / 400))
    as (m & Em & Hm & Hr).
  exists m. split; [exact Em|]. split; [exact Hm|]. split; [exact Hr|].
  intros A U H S. rewrite Hm, A, U, H, S.
  rewrite Q.min_r by (vm_compute; discriminate).
  rewrite Q.max_r by (vm_compute; discriminate).
  reflexivity.
Qed.

(** The boundary combination the spec names. *)
Lemma mouthOpen_clamped_witness :
  exists m : Q,
    mouthOpen (JS.Fin 1)
      (mkEmotion (JS.Fin 0) (JS.Fin 100) (JS.Fin 0) (JS.Fin 100) (JS.Fin 0)) = JS.Fin m
    /\ m == Qmax 0 (Qmin 1 (1 * (0.65 + 100 / 180) + (0 - 100) / 400))
    /\ 0 <= m <= 1
    /\ (1 == 1 -> 100 == 100 -> 0 == 0 -> 100 == 100 -> m == 43 # 45).
Proof.
  apply (mouthOpen_clamped 1 0 100 100
           (mkEmotion (JS.Fin 0) (JS.Fin 100) (JS.Fin 0) (JS.Fin 100) (JS.Fin 0)));
    try reflexivity; try lra.
Defined.

(** *** The blink state machine *)

(** What one frame does to the openness, branch by branch. *)
Lemma advanceBlink_closing (b : BlinkState) :
  closing b = true -> openness (advanceBlink b) == Qmax 0 (openness b - 0.15).
Proof.
  intros C. unfold advanceBlink. rewrite C. cbv zeta.
  case_Qle (openness b - 0.15) 0; cbn [openness].
  - rewrite Q.max_l; [reflexivity | assumption].
  - rewrite Q.max_r; [reflexivity | lra].
Qed.

Lemma advanceBlink_opening (b : BlinkState) :
  closing b = false -> openness b < target b ->
  openness (advanceBlink b) == Qmin 1 (openness b + 0.12).
Proof.
  intros C L. unfold advanceBlink. rewrite C.
  apply Qltb_true in L. rewrite L. cbv zeta.
  case_Qle 1 (openness b + 0.12); cbn [openness].
  - rewrite Q.min_l; [reflexivity | assumption].
  - rewrite Q.min_r; [reflexivity | lra].
Qed.

Lemma advanceBlink_resting (b : BlinkState) :
  closing b = false -> target b <= openness b -> advanceBlink b = b.
Proof.
  intros C L. unfold advanceBlink. rewrite C.
  apply Qltb_false in L. now rewrite L.
Qed.

Lemma advanceBlink_range (b : BlinkState) :
  0 <= openness b <= 1 -> 0 <= openness (advanceBlink b) <= 1.
Proof.
  intros R. unfold advanceBlink.
  destruct (closing b); cbv zeta.
  - case_Qle (openness b - 0.15) 0; cbn [openness]; lra.
  - case_Qlt (openness b) (target b); [|exact R].
    case_Qle 1 (openness b + 0.12); cbn [openness]; lra.
Qed.

Lemma scheduleBlink_openness (f : Frame) (st : RenderState) :
  openness (blinkState (scheduleBlink f st)) = openness (blinkState st).
Proof.
  unfold scheduleBlink.
  destruct (Qltb (2800 + random f * 2000) (now f - lastBlinkTime st)); reflexivity.
Qed.

Lemma render_range (f : Frame) (st : RenderState) :
  0 <= openness (blinkState st) <= 1 ->
  0 <= openness (blinkState (render f st)) <= 1.
Proof.
  intros R. unfold render. cbn [blinkState].
  apply advanceBlink_range. now rewrite scheduleBlink_openness.
Qed.

(** C5.  From any blink state whose openness is in [[0, 1]] (whatever its
    phase, target and timer), and for any frames (clock readings and random
    draws), the openness is in [[0, 1]] after every [render]; a closing frame
    takes 0.15 off, stopping at 0, an opening frame adds 0.12, stopping
    at 1. *)
Theorem blink_openness_in_range (fs : list Frame) (st : RenderState) :
  0 <= openness (blinkState st) <= 1 ->
  0 <= openness (blinkState (renderFrames fs st)) <= 1
  /\ (forall b, closing b = true ->
        openness (advanceBlink b) == Qmax 0 (openness b - 0.15))
  /\ (forall b, closing b = false -> openness b < target b ->
        openness (advanceBlink b) == Qmin 1 (openness b + 0.12)).
Proof.
  intros R. split; [|split].
  - revert st R. induction fs as [|f fs IH]; intros st R; cbn [renderFrames].
    + exact R.
    + apply IH. now apply render_range.
  - exact advanceBlink_closing.
  - exact advanceBlink_opening.
Qed.

(** Three frames from the initial state, the second one starting a blink. *)
Lemma blink_openness_in_range_witness :
  let fs := [mkFrame 16 0.5; mkFrame 5000 0; mkFrame 5016 0.5] in
  let st := mkRender initialBlink 0 in
  0 <= openness (blinkState (renderFrames fs st)) <= 1
  /\ (forall b, closing b = true ->
        openness (advanceBlink b) == Qmax 0 (openness b - 0.15))
  /\ (forall b, closing b = false -> openness b < target b ->
        openness (advanceBlink b) == Qmin 1 (openness b + 0.12)).
Proof.
  apply (blink_openness_in_range
           [mkFrame 16 0.5; mkFrame 5000 0; mkFrame 5016 0.5] (mkRender initialBlink 0)).
  cbn. lra.
Defined.

(** The invariant is about blink states: a record whose openness is outside
    [[0, 1]] and at rest is left as it is. *)
Example blink_outside_stays :
  advanceBlink (mkBlink false 5 1) = mkBlink false 5 1.
Proof. reflexivity. Qed.

(** A complete blink from the resting state: seven closing frames reach 0
    (1 - 7 * 0.15 < 0), nine opening frames reach 1 again. *)
Example blink_cycle :
  let fire := mkFrame 3000 0 in
  let idle k := mkFrame (3000 + inject_Z (Z.of_nat k)) 1 in
  let st := renderFrames (fire :: map idle (seq 1 6)) (mkRender initialBlink 0) in
  let st' := renderFrames (map idle (seq 7 9)) st in
  blinkState st = mkBlink false 0 1
  /\ closing (blinkState st') = false /\ openness (blinkState st') = 1.
Proof. vm_compute. repeat split. Qed.

(** *** The camera presets *)

(** C8.  [computeCameraOffset] maps "closeUp" to exactly (x 0, y 0.45,
    scale 1.18) and the default "front" to exactly (0, 0.52, 1). *)
Theorem camera_presets :
  computeCameraOffset closeUp = mkCamera 0 0.45 1.18
  /\ computeCameraOffset front = mkCamera 0 0.52 1
  /\ Qred (cam_y (computeCameraOffset closeUp)) = 9 # 20
  /\ Qred (cam_scale (computeCameraOffset closeUp)) = 59 # 50
  /\ Qred (cam_y (computeCameraOffset front)) = 13 # 25.
Proof. repeat split. Qed.

(** The whole table has five entries, and only "closeUp" enlarges beyond
    1.02. *)
Lemma camera_table (angle : CameraAngle) :
  In (computeCameraOffset angle)
    [mkCamera 0 0.52 1; mkCamera (-30) 0.52 1.02; mkCamera 30 0.52 1.02;
     mkCamera 0 0.45 1.18; mkCamera 0 0.58 0.92].
Proof. destruct angle; cbn; tauto. Qed.

End AnimatorFacts.

(** ** The audio engine *)

Module AudioEngineFacts.
Import AudioEngine.

(** [seek] with a finite argument does move the playback position. *)
Lemma seek_finite (q : Q) (audio : MediaElement) (e : Engine) :
  audioElementRef e = Some audio ->
  exists e', seek (JS.Fin q) e = Normal e'
             /\ playbackPosition e' = Some (JS.Fin q)
             /\ error e' = error e.
Proof.
  intros H. unfold seek. rewrite H. cbn.
  eexists. split; [reflexivity|]. split; reflexivity.
Qed.

Lemma seek_not_finite (value : JS.number) (e : Engine) :
  JS.isFinite value = false -> seek value e = Normal e.
Proof.
  intros H. unfold seek. rewrite H. now destruct (audioElementRef e).
Qed.

(** C6.  [seek] of [NaN], [+Infinity] or [-Infinity] is a silent no-op: it
    returns normally and leaves the engine as it was, in particular the
    playback position and the reported error. *)
Theorem seek_non_finite_noop (e : Engine) :
  (seek JS.NaN e = Normal e /\ seek JS.PInf e = Normal e /\ seek JS.NInf e = Normal e)
  /\ (forall value e', JS.isFinite value = false -> seek value e = Normal e' ->
        playbackPosition e' = playbackPosition e /\ error e' = error e).
Proof.
  split.
  - repeat split; now apply seek_not_finite.
  - intros value e' H S. rewrite (seek_not_finite value e H) in S.
    injection S as <-. split; reflexivity.
Qed.

(** A playing element at 12.5 s with a connected graph: the three non-finite
    seeks leave it there. *)
Example seek_non_finite_example :
  let e :=
    mkEngine (JS.Fin 0.25) true (JS.Fin 30) (JS.Fin 12.5) None None
      (Some (mkMedia (Some "blob:voice"%string) false (JS.Fin 12.5))) (Some 1%nat) 7 [1%nat] [7%Z] in
  map (fun v => option_map playbackPosition
                  (match seek v e with Normal e' => Some e' | Throw _ => None end))
    [JS.NaN; JS.PInf; JS.NInf; JS.Fin 3]
  = [Some (Some (JS.Fin 12.5)); Some (Some (JS.Fin 12.5)); Some (Some (JS.Fin 12.5));
     Some (Some (JS.Fin 3))].
Proof. reflexivity. Qed.

Section Teardown.

Variable disconnectThrows : nat -> bool.

(** [cleanupSource] always returns normally: a failing [disconnect] is
    caught. *)
Lemma cleanupSource_returns (e : Engine) :
  exists e', cleanupSource disconnectThrows e = Normal e'
             /\ sourceNodeRef e' = None
             /\ animationFrameRef e' = 0%Z
             /\ audioLevel e' = JS.Fin 0
             /\ sourceMeta e' = sourceMeta e
             /\ audioElementRef e' = audioElementRef e.
Proof.
  unfold cleanupSource, disconnect.
  destruct (sourceNodeRef e) as [node|] eqn:N;
    [destruct (disconnectThrows node)|]; cbn;
    rewrite ?N; destruct (Z.eqb (animationFrameRef e) 0) eqn:F; cbn;
    eexists; (split; [reflexivity|]); cbn; rewrite ?N;
    repeat split; try reflexivity; now apply Z.eqb_eq in F.
Qed.

(** On a state that is already torn down, [cleanupSource] changes nothing. *)
Lemma cleanupSource_clean (e : Engine) :
  sourceNodeRef e = None -> animationFrameRef e = 0%Z -> audioLevel e = JS.Fin 0 ->
  cleanupSource disconnectThrows e = Normal e.
Proof.
  intros N F L. unfold cleanupSource. rewrite N. cbn. rewrite F. cbn.
  destruct e; cbn in *. now subst.
Qed.

(** C9.  [release] never throws, and a second [release] right after the
    first returns the very same state: no source metadata, no source node, no
    pending analysis callback, audio level zero (and the media element, when
    there is one, paused without a source). *)
Theorem release_idempotent (e : Engine) :
  exists e1,
    release disconnectThrows e = Normal e1
    /\ release disconnectThrows e1 = Normal e1
    /\ sourceMeta e1 = None
    /\ sourceNodeRef e1 = None
    /\ animationFrameRef e1 = 0%Z
    /\ (animationFrameRef e = 0%Z \/ ~ In (animationFrameRef e) (pendingFrames e1))
    /\ audioLevel e1 = JS.Fin 0
    /\ option_map src (audioElementRef e1) = option_map (fun _ => None) (audioElementRef e)
    /\ option_map paused (audioElementRef e1) = option_map (fun _ => true) (audioElementRef e).
Proof.
  destruct e as [lvl playing dur time err meta audio node frame nodes frames].
  unfold release, cleanupSource, disconnect. cbn.
  assert (Hfilter : ~ In frame (filter (fun h' => negb (Z.eqb h' frame)) frames)).
  { rewrite filter_In. intros [_ H]. now rewrite Z.eqb_refl in H. }
  destruct node as [n|]; try destruct (disconnectThrows n);
    destruct audio as [a|]; cbn;
    (destruct (Z.eqb_spec frame 0) as [E|Hne]; [subst frame|]); cbn;
    eexists; (split; [reflexivity|]); cbn;
    repeat split; try reflexivity;
    solve [ left; reflexivity | right; exact Hfilter ].
Qed.

(** [release] changes nothing on a released engine, whatever the media
    events that ran in between did to [isPlaying], [duration], [currentTime]
    and [error]. *)
Lemma release_on_released (e : Engine) :
  sourceNodeRef e = None -> animationFrameRef e = 0%Z -> audioLevel e = JS.Fin 0 ->
  sourceMeta e = None ->
  (forall audio, audioElementRef e = Some audio -> audio = mkMedia None true (JS.Fin 0)) ->
  release disconnectThrows e = Normal e.
Proof.
  intros N F L M A. unfold release.
  rewrite (cleanupSource_clean e N F L). cbn [bind].
  destruct e as [lvl playing dur time err meta audio node frame nodes frames].
  cbn in *. subst. destruct audio as [a|]; [|reflexivity].
  now rewrite (A a eq_refl).
Qed.

(** Released right after mounting, the engine is the initial one. *)
Lemma release_initial : release disconnectThrows initialEngine = Normal initialEngine.
Proof. reflexivity. Qed.

End Teardown.

End AudioEngineFacts.

(** ** The export panel *)

Module RecorderFacts.
Import Recorder.

Section Browser.

Variable isTypeSupported : string -> bool.
Variable captureAudioStream : option MediaStream.

(** Whatever the state, [startRecording] leaves a recorder that is already
    there alone: it never replaces or drops it. *)
Lemma startRecording_keeps_recorder (requested : string) (p : Panel) (r : MediaRecorder) :
  recorderRef p = Some r ->
  recorderRef (startRecording isTypeSupported captureAudioStream requested p) = Some r
  /\ exportChunks (startRecording isTypeSupported captureAudioStream requested p) = exportChunks p
  /\ lastMime (startRecording isTypeSupported captureAudioStream requested p) = lastMime p.
Proof.
  intros H. unfold startRecording. rewrite H.
  destruct (canvas p); cbn; auto.
Qed.

(** From an idle panel with a canvas, a supported format starts a recorder. *)
Lemma startRecording_starts (requested : string) (p : Panel) (c : MediaStream) :
  canvas p = Some c -> recorderRef p = None ->
  isTypeSupported requested = true ->
  exists r, recorderRef (startRecording isTypeSupported captureAudioStream requested p) = Some r
            /\ mimeType r = requested /\ state r = active
            /\ status (startRecording isTypeSupported captureAudioStream requested p) = recording
            /\ canvas (startRecording isTypeSupported captureAudioStream requested p) = Some c.
Proof.
  intros C R S. unfold startRecording. rewrite C, R, S. cbn. rewrite S. cbn.
  eexists. repeat split; solve [reflexivity | exact C].
Qed.

(** An unsupported format falls back to "video/webm"; when that is not
    supported either, the call reports it and starts nothing. *)
Lemma startRecording_unsupported (requested : string) (p : Panel) (c : MediaStream) :
  canvas p = Some c -> recorderRef p = None ->
  isTypeSupported requested = false -> isTypeSupported "video/webm" = false ->
  recorderRef (startRecording isTypeSupported captureAudioStream requested p) = None /\ status (startRecording isTypeSupported captureAudioStream requested p) = error.
Proof.
  intros C R S W. unfold startRecording. rewrite C, R, S. cbn. rewrite W. cbn.
  split; [exact R | reflexivity].
Qed.

(** With a recorder in place and the canvas mounted the call only reports. *)
Lemma startRecording_busy (requested : string) (p : Panel) (c : MediaStream) (r : MediaRecorder) :
  canvas p = Some c -> recorderRef p = Some r ->
  startRecording isTypeSupported captureAudioStream requested p
  = report error "Recording already in progress." p.
Proof.
  intros C R. unfold startRecording. now rewrite C, R.
Qed.

(** C7.  With a recording active (and the preview canvas still mounted),
    [startRecording] reports "Recording already in progress." with status
    [error] and changes nothing else: the recorder reference, the recorder it
    points to, the collected chunks and the download state are as before. *)
Theorem startRecording_while_recording
  (requested : string) (p : Panel) (c : MediaStream) (r : MediaRecorder) :
  canvas p = Some c -> recorderRef p = Some r ->
  let p' := startRecording isTypeSupported captureAudioStream requested p in
  p' = report error "Recording already in progress." p
  /\ status p' = error
  /\ message p' = Some "Recording already in progress."%string
  /\ recorderRef p' = Some r
  /\ exportChunks p' = exportChunks p
  /\ lastMime p' = lastMime p
  /\ downloadReady p' = downloadReady p
  /\ downloadSize p' = downloadSize p
  /\ downloadUrl p' = downloadUrl p.
Proof.
  intros C R p'. subst p'. rewrite (startRecording_busy requested p c r C R). cbn.
  repeat split. exact R.
Qed.

(** The scenario of the spec: two calls without a [stopRecording] between
    them.  The second reports the error and the recorder of the first is
    still the one in place. *)
Lemma startRecording_twice (first second : string) (p : Panel) (c : MediaStream) :
  canvas p = Some c -> recorderRef p = None -> isTypeSupported first = true ->
  let p1 := startRecording isTypeSupported captureAudioStream first p in
  let p2 := startRecording isTypeSupported captureAudioStream second p1 in
  recorderRef p1 <> None
  /\ recorderRef p2 = recorderRef p1
  /\ status p2 = error
  /\ message p2 = Some "Recording already in progress."%string.
Proof.
  intros C R S p1 p2.
  destruct (startRecording_starts first p c C R S) as (r & Hr & _ & _ & _ & Hc).
  fold p1 in Hr, Hc. subst p2.
  rewrite (startRecording_busy second p1 c r Hc Hr). cbn.
  rewrite Hr. repeat split. discriminate.
Qed.

(** After [stopRecording] a new recording can start again. *)
Lemma stopRecording_clears (p : Panel) : recorderRef (stopRecording p) = None.
Proof.
  unfold stopRecording. destruct (recorderRef p) eqn:E; cbn; auto.
Qed.

End Browser.

(** A WebM recording in progress on a one-track canvas; the browser supports
    WebM only and the engine offers no audio stream. *)
Lemma startRecording_while_recording_witness :
  let webm := "video/webm;codecs=vp9,opus"%string in
  let supported := fun m => String.eqb m webm in
  let r := mkRecorder [VideoTrack 0] webm 5000000 active in
  let p := mkPanel (Some [VideoTrack 0]) recording (Some "Recording"%string) false None
             (Some r) [] None webm in
  let p' := startRecording supported None "video/mp4;codecs=h264,aac" p in
  p' = report error "Recording already in progress." p
  /\ status p' = error
  /\ message p' = Some "Recording already in progress."%string
  /\ recorderRef p' = Some r
  /\ exportChunks p' = exportChunks p
  /\ lastMime p' = lastMime p
  /\ downloadReady p' = downloadReady p
  /\ downloadSize p' = downloadSize p
  /\ downloadUrl p' = downloadUrl p.
Proof.
  intros webm supported r p.
  apply (startRecording_while_recording supported None "video/mp4;codecs=h264,aac"
           p [VideoTrack 0] r); reflexivity.
Defined.

End RecorderFacts.


(** ** The WAV encoder *)

Module WavFacts.
Import Wav.

(** *** Stores *)

Lemma store_fits (pre old post bytes : list Z) :
  length old = length bytes ->
  store (pre ++ old ++ post) (length pre) bytes = Normal (pre ++ bytes ++ post).
Proof.
  intros H. unfold store.
  replace (length pre + length bytes <=? length (pre ++ old ++ post))%nat with true.
  - rewrite firstn_app, firstn_all, Nat.sub_diag, firstn_O, app_nil_r.
    rewrite skipn_app, skipn_all2 by lia.
    replace (length pre + length bytes - length pre)%nat with (length old) by lia.
    rewrite skipn_app, skipn_all, Nat.sub_diag, skipn_O. reflexivity.
  - symmetry. apply Nat.leb_le. rewrite !length_app. lia.
Qed.

Lemma pcm_length (input : list JS.number) : length (pcm input) = (length input * 2)%nat.
Proof.
  unfold pcm. induction input as [|x rest IH]; [reflexivity|].
  cbn [flat_map length app le16]. rewrite IH. reflexivity.
Qed.

(** The sample loop fills the zeroed tail of the buffer, two bytes at a
    time, and never leaves it. *)
Lemma floatTo16BitPCM_from_fills (offset : nat) (input : list JS.number) :
  forall (i : nat) (pre post : list Z),
  length pre = (offset + i * 2)%nat ->
  floatTo16BitPCM_from i (pre ++ repeat 0%Z (length input * 2) ++ post) offset input
  = Normal (pre ++ pcm input ++ post).
Proof.
  induction input as [|x rest IH]; intros i pre post Hpre.
  - reflexivity.
  - cbn [floatTo16BitPCM_from length Nat.mul Nat.add repeat]. unfold setInt16.
    rewrite <- Hpre.
    change (0%Z :: 0%Z :: repeat 0%Z (length rest * 2))
      with ([0%Z; 0%Z] ++ repeat 0%Z (length rest * 2)).
    rewrite <- (app_assoc [0%Z; 0%Z]).
    rewrite store_fits by reflexivity. cbn [bind].
    rewrite (app_assoc pre).
    rewrite IH by (rewrite length_app, Hpre; cbn; lia).
    rewrite <- (app_assoc pre). reflexivity.
Qed.

(** [encodeWav] returns, without ever throwing, the header followed by the
    sample bytes. *)
Lemma encodeWav_bytes (samples : list JS.number) (sampleRate : Z) :
  encodeWav samples sampleRate = Normal (header (length samples) sampleRate ++ pcm samples).
Proof.
  rewrite <- (app_nil_r (pcm samples)).
  rewrite <- (floatTo16BitPCM_from_fills 44 samples 0
                (header (length samples) sampleRate) [] eq_refl).
  rewrite app_nil_r.
  unfold encodeWav, floatTo16BitPCM, newArrayBuffer, setUint32, setUint16.
  cbv zeta.
  cbn -[byteOf Nat.mul Z.mul Z.add Z.of_nat floatTo16BitPCM_from pcm].
  reflexivity.
Qed.

(** *** Reading the bytes back *)

Lemma byteOf_range (k value : Z) : (0 <= byteOf k value < 256)%Z.
Proof. unfold byteOf. apply Z.mod_pos_bound. lia. Qed.

Lemma le16_value (value : Z) :
  (byteOf 0 value + 256 * byteOf 1 value = value mod 65536)%Z.
Proof.
  unfold byteOf. change (2 ^ (8 * 0))%Z with 1%Z. change (2 ^ (8 * 1))%Z with 256%Z.
  rewrite Z.div_1_r.
  change 65536%Z with (256 * 256)%Z.
  rewrite Z.rem_mul_r by lia. reflexivity.
Qed.

Lemma le32_value (value : Z) :
  (byteOf 0 value + 256 * byteOf 1 value
   + 65536 * (byteOf 2 value + 256 * byteOf 3 value) = value mod 4294967296)%Z.
Proof.
  rewrite le16_value.
  replace (byteOf 2 value + 256 * byteOf 3 value)%Z with ((value / 65536) mod 65536)%Z.
  - change 4294967296%Z with (65536 * 65536)%Z.
    rewrite Z.rem_mul_r by lia. reflexivity.
  - rewrite <- le16_value. unfold byteOf.
    change (2 ^ (8 * 0))%Z with 1%Z. change (2 ^ (8 * 1))%Z with 256%Z.
    change (2 ^ (8 * 2))%Z with 65536%Z. change (2 ^ (8 * 3))%Z with (65536 * 256)%Z.
    rewrite Z.div_1_r, Z.div_div by lia. reflexivity.
Qed.

Lemma getUint16_at (pre post : list Z) (b0 b1 : Z) :
  getUint16 (pre ++ b0 :: b1 :: post) (length pre) = Some (b0 + 256 * b1)%Z.
Proof.
  unfold getUint16, getUint8.
  rewrite nth_error_app2, Nat.sub_diag by lia. cbn [nth_error].
  rewrite nth_error_app2 by lia.
  replace (length pre + 1 - length pre)%nat with 1%nat by lia. reflexivity.
Qed.

(** The header [encodeWav] wrote, as a reader sees it: every 32-bit field
    modulo 2^32. *)
Lemma readHeader_encoded (n : nat) (sampleRate : Z) (rest : list Z) :
  readHeader (header n sampleRate ++ rest)
  = Some {| riffChunkSize := (36 + Z.of_nat (n * 2)) mod 4294967296;
            fmtChunkSize := 16;
            audioFormat := 1;
            numChannels := 1;
            sampleRateField := sampleRate mod 4294967296;
            byteRate := (sampleRate * 2) mod 4294967296;
            blockAlignField := 2;
            bitsPerSample := 16;
            dataChunkSize := Z.of_nat (n * 2) mod 4294967296 |}.
Proof.
  unfold readHeader, header, chars, le32, le16, getUint32, getUint16, getUint8.
  cbn -[byteOf Z.add Z.mul Nat.mul].
  rewrite !le32_value. reflexivity.
Qed.

Lemma getInt16_at (pre post : list Z) (value : Z) :
  getInt16 (pre ++ le16 value ++ post) (length pre)
  = Some (let u := (value mod 65536)%Z in if (u <? 32768)%Z then u else (u - 65536)%Z).
Proof.
  unfold getInt16, le16. cbn [app]. rewrite getUint16_at, le16_value. reflexivity.
Qed.

Lemma readSamples_pcm (input : list JS.number) :
  forall pre post : list Z,
  readSamples (pre ++ pcm input ++ post) (length pre) (length input)
  = Some (map decoded input).
Proof.
  induction input as [|x rest IH]; intros pre post.
  - reflexivity.
  - cbn [length readSamples map].
    change (pcm (x :: rest)) with (le16 (toInteger (scaleSample x)) ++ pcm rest).
    rewrite <- (app_assoc (le16 _)), getInt16_at.
    specialize (IH (pre ++ le16 (toInteger (scaleSample x))) post).
    rewrite length_app in IH. cbn [le16 length] in IH.
    rewrite <- app_assoc in IH. rewrite IH. reflexivity.
Qed.

Lemma header_length (n : nat) (sampleRate : Z) : length (header n sampleRate) = 44%nat.
Proof. reflexivity. Qed.

(** Parsing what [encodeWav] produced: the rate modulo 2^32 and one decoded
    value per sample, as long as the data size fits its 32-bit field. *)
Lemma parseWav_encoded (samples : list JS.number) (sampleRate : Z) :
  (Z.of_nat (length samples * 2) < 4294967296)%Z ->
  parseWav (header (length samples) sampleRate ++ pcm samples)
  = Some ((sampleRate mod 4294967296)%Z, map decoded samples).
Proof.
  intros Hn. unfold parseWav. rewrite readHeader_encoded.
  cbn [audioFormat numChannels bitsPerSample dataChunkSize sampleRateField].
  rewrite Z.mod_small by lia. rewrite Nat2Z.id.
  rewrite length_app, header_length, pcm_length, Nat.eqb_refl.
  cbn [Z.eqb Pos.eqb andb].
  rewrite Nat.div_mul by discriminate.
  pose proof (readSamples_pcm samples (header (length samples) sampleRate) []) as H.
  rewrite header_length, app_nil_r in H. rewrite H. reflexivity.
Qed.

(** *** Quantization *)

Lemma truncate_nonneg (x : Q) :
  0 <= x -> inject_Z (JS.truncate x) <= x /\ x < inject_Z (JS.truncate x) + 1.
Proof.
  intros Hx.
  assert (E : JS.truncate x = Qfloor x).
  { destruct x as [n d]. unfold JS.truncate, Qfloor. cbn [Qnum Qden].
    apply Z.quot_div_nonneg; [|lia].
    unfold Qle in Hx. cbn in Hx. lia. }
  rewrite E. split; [apply Qfloor_le|].
  pose proof (Qlt_floor x) as H. rewrite inject_Z_plus in H. exact H.
Qed.

Lemma truncate_nonpos (x : Q) :
  x <= 0 -> x <= inject_Z (JS.truncate x) /\ inject_Z (JS.truncate x) < x + 1.
Proof.
  intros Hx.
  assert (E : JS.truncate x = Qceiling x).
  { destruct x as [n d]. unfold JS.truncate, Qceiling, Qfloor. cbn [Qnum Qden Qopp].
    unfold Qle in Hx. cbn in Hx.
    rewrite <- (Z.opp_involutive n) at 1.
    rewrite Z.quot_opp_l by lia. f_equal.
    apply Z.quot_div_nonneg; lia. }
  rewrite E. split; [apply Qle_ceiling|].
  pose proof (Qceiling_lt x) as H.
  unfold Zminus in H. rewrite inject_Z_plus, inject_Z_opp in H.
  change (inject_Z 1) with 1 in H. lra.
Qed.

Lemma signed_wrap (t : Z) :
  (-32768 <= t <= 32767)%Z ->
  (if t mod 65536 <? 32768 then t mod 65536 else t mod 65536 - 65536)%Z = t.
Proof.
  intros Ht.
  destruct (Z.ltb_spec (t mod 65536) 32768) as [H|H];
    pose proof (Z.mod_pos_bound t 65536 eq_refl);
    pose proof (Z.div_mod t 65536); nia.
Qed.

(** What [scaleSample] computes on a finite sample: the clamp to [[-1, 1]],
    times 32768 below zero and 32767 from zero up. *)
Lemma scaleSample_finite (s : Q) :
  exists c : Q,
    c == clampUnit s
    /\ Wav.scaleSample (JS.Fin s)
       = JS.Fin (if Qltb c 0 then c * 32768 else c * 32767).
Proof.
  unfold scaleSample, clampUnit. cbn [JS.min JS.max].
  case_Qle 1 s.
  - exists 1. split.
    + rewrite (Q.min_l 1 s) by assumption. rewrite Q.max_r; [reflexivity | lra].
    + reflexivity.
  - case_Qle (-1) s.
    + exists s. split.
      * rewrite (Q.min_r 1 s) by lra. rewrite Q.max_r; [reflexivity | lra].
      * cbn [JS.lt JS.mul]. destruct (Qltb s 0); reflexivity.
    + exists (-1). split.
      * rewrite (Q.min_r 1 s) by lra. rewrite Q.max_l; [reflexivity | lra].
      * reflexivity.
Qed.

Lemma Qmake_32768 (t : Z) : (t # 32768) * 32768 == inject_Z t.
Proof.
  unfold Qeq, Qmult, inject_Z. cbn [Qnum Qden]. lia.
Qed.

Lemma clampUnit_range (s : Q) : -1 <= clampUnit s <= 1.
Proof.
  unfold clampUnit. split.
  - apply Q.le_max_l.
  - apply Q.max_lub; [lra | apply Q.le_min_l].
Qed.

Lemma clampUnit_id (s : Q) : -1 <= s <= 1 -> clampUnit s == s.
Proof.
  intros H. unfold clampUnit.
  rewrite (Q.min_r 1 s) by lra. rewrite Q.max_r; [reflexivity | lra].
Qed.

(** The decoded value against the clamped sample: never above it from zero
    up, never below it under zero, and less than one step of 1/32768 away
    from its scaled value. *)
Lemma decoded_error (s : Q) :
  let c := clampUnit s in
  let d := decoded (JS.Fin s) in
  (0 <= c -> d * 32768 <= c * 32767 /\ c * 32767 < d * 32768 + 1)
  /\ (c < 0 -> c * 32768 <= d * 32768 /\ d * 32768 < c * 32768 + 1).
Proof.
  cbv zeta.
  destruct (scaleSample_finite s) as (c & Hc & E).
  pose proof (clampUnit_range s) as Hr. rewrite <- Hc in *.
  unfold decoded, storedInt16. rewrite E. cbn [toInteger]. cbv zeta.
  case_Qlt c 0.
  - destruct (truncate_nonpos (c * 32768)) as [T1 T2]; [lra|].
    assert (Ht : (-32768 <= JS.truncate (c * 32768) <= 32767)%Z).
    { split.
      - rewrite Zle_Qle. change (inject_Z (-32768)) with (-32768 # 1). lra.
      - assert (JS.truncate (c * 32768) < 1)%Z; [|lia].
        rewrite Zlt_Qlt. change (inject_Z 1) with 1. lra. }
    rewrite (signed_wrap _ Ht), Qmake_32768.
    split; [intros; lra | intros _; split; lra].
  - destruct (truncate_nonneg (c * 32767)) as [T1 T2]; [lra|].
    assert (Ht : (-32768 <= JS.truncate (c * 32767) <= 32767)%Z).
    { split.
      - assert (-1 < JS.truncate (c * 32767))%Z; [|lia].
        rewrite Zlt_Qlt. change (inject_Z (-1)) with (-1 # 1). lra.
      - rewrite Zle_Qle. change (inject_Z 32767) with 32767. lra. }
    rewrite (signed_wrap _ Ht), Qmake_32768.
    split; [intros _; split; lra | intros; lra].
Qed.

(** The error of one sample after a round trip, in absolute value. *)
Lemma decoded_close (s : Q) :
  Qabs (clampUnit s - decoded (JS.Fin s)) < 2 # 32768
  /\ (clampUnit s <= 0 -> Qabs (clampUnit s - decoded (JS.Fin s)) < 1 # 32768).
Proof.
  destruct (decoded_error s) as [Hp Hn].
  pose proof (clampUnit_range s) as Hr.
  split; [|intros H0]; apply Qabs_Qlt_condition.
  - destruct (Qlt_le_dec (clampUnit s) 0) as [L|L];
      [destruct (Hn L) | destruct (Hp L)]; split; lra.
  - destruct (Qlt_le_dec (clampUnit s) 0) as [L|L];
      [destruct (Hn L) | destruct (Hp L)]; split; lra.
Qed.

(** Samples that are not numbers, or not finite. *)
Lemma decoded_non_finite :
  decoded JS.NaN = 0 # 32768
  /\ decoded JS.PInf = 32767 # 32768
  /\ decoded JS.NInf = -32768 # 32768.
Proof. repeat split. Qed.

(** *** The container *)

(** [encodeWav] never throws and always returns [44 + 2N] bytes. *)
Lemma encodeWav_length (samples : list JS.number) (sampleRate : Z) :
  exists bytes, encodeWav samples sampleRate = Normal bytes
                /\ length bytes = (44 + length samples * 2)%nat.
Proof.
  exists (header (length samples) sampleRate ++ pcm samples).
  split; [apply encodeWav_bytes|].
  now rewrite length_app, header_length, pcm_length.
Qed.

(** C4.  For [N] samples at rate [R] (an integral rate, both within what the
    32-bit header fields can hold) [encodeWav] returns a container of
    [44 + 2N] bytes whose header is that of a mono, 16-bit, linear-PCM file:
    RIFF chunk size [36 + 2N], format 1, one channel, rate [R], byte rate
    [R * blockAlign], block align 2, 16 bits per sample, data chunk size
    [2N]. *)
Theorem encodeWav_container (samples : list JS.number) (sampleRate : Z) :
  let N := Z.of_nat (length samples) in
  (0 <= sampleRate)%Z -> (sampleRate * 2 < 4294967296)%Z -> (36 + 2 * N < 4294967296)%Z ->
  exists bytes h,
    encodeWav samples sampleRate = Normal bytes
    /\ Z.of_nat (length bytes) = (44 + 2 * N)%Z
    /\ readHeader bytes = Some h
    /\ riffChunkSize h = (36 + 2 * N)%Z
    /\ fmtChunkSize h = 16%Z
    /\ audioFormat h = 1%Z
    /\ numChannels h = 1%Z
    /\ sampleRateField h = sampleRate
    /\ byteRate h = (sampleRate * blockAlignField h)%Z
    /\ blockAlignField h = 2%Z
    /\ bitsPerSample h = 16%Z
    /\ dataChunkSize h = (2 * N)%Z.
Proof.
  cbv zeta. intros HR HB HN.
  eexists. eexists.
  split; [apply encodeWav_bytes|].
  split; [rewrite length_app, header_length, pcm_length; lia|].
  split; [apply readHeader_encoded|].
  cbn [riffChunkSize fmtChunkSize audioFormat numChannels sampleRateField byteRate
       blockAlignField bitsPerSample dataChunkSize].
  rewrite !Z.mod_small by lia.
  repeat split; lia.
Qed.

(** Two samples at 48 kHz: 48 bytes, RIFF size 40, byte rate 96000. *)
Lemma encodeWav_container_witness :
  exists bytes h,
    encodeWav [JS.Fin 0.5; JS.Fin (-1)] 48000 = Normal bytes
    /\ Z.of_nat (length bytes) = (44 + 2 * 2)%Z
    /\ readHeader bytes = Some h
    /\ riffChunkSize h = (36 + 2 * 2)%Z
    /\ fmtChunkSize h = 16%Z
    /\ audioFormat h = 1%Z
    /\ numChannels h = 1%Z
    /\ sampleRateField h = 48000%Z
    /\ byteRate h = (48000 * blockAlignField h)%Z
    /\ blockAlignField h = 2%Z
    /\ bitsPerSample h = 16%Z
    /\ dataChunkSize h = (2 * 2)%Z.
Proof.
  apply (encodeWav_container [JS.Fin 0.5; JS.Fin (-1)] 48000); cbn; lia.
Defined.

(** The bytes of that container. *)
Example encodeWav_two_samples :
  encodeWav [JS.Fin 0.5; JS.Fin (-1)] 48000
  = Normal [82; 73; 70; 70; 40; 0; 0; 0; 87; 65; 86; 69; 102; 109; 116; 32;
            16; 0; 0; 0; 1; 0; 1; 0; 128; 187; 0; 0; 0; 119; 1; 0; 2; 0; 16; 0;
            100; 97; 116; 97; 4; 0; 0; 0; 255; 63; 0; 128]%Z.
Proof. vm_compute. reflexivity. Qed.

(** *** The round trip *)

(** C3, as stated, fails: the sample [32769 / 2^24] (a float32 value, about
    0.00195) is stored as [floor(32767 * s) = 63] and read back as
    [63 / 32768]; the error, [513 / 2^24], is above [1 / 32768 = 512 / 2^24]. *)
Lemma roundtrip_error_above_bound :
  let s := 32769 # 16777216 in
  exists bytes,
    encodeWav [JS.Fin s] 48000 = Normal bytes
    /\ parseWav bytes = Some (48000%Z, [63 # 32768])
    /\ -1 <= s <= 1
    /\ Qabs (s - (63 # 32768)) == 513 # 16777216
    /\ ~ Qabs (s - (63 # 32768)) <= 1 # 32768.
Proof.
  cbv zeta.
  exists [82; 73; 70; 70; 38; 0; 0; 0; 87; 65; 86; 69; 102; 109; 116; 32;
          16; 0; 0; 0; 1; 0; 1; 0; 128; 187; 0; 0; 0; 119; 1; 0; 2; 0; 16; 0;
          100; 97; 116; 97; 2; 0; 0; 0; 63; 0]%Z.
  split; [vm_compute; reflexivity|].
  split; [vm_compute; reflexivity|].
  split; [split; discriminate|].
  split; [vm_compute; reflexivity|].
  intros H. vm_compute in H. apply H. reflexivity.
Qed.

(** C3, amended.  For [N] samples and an integral rate [R] that fit the
    32-bit header fields, parsing what [encodeWav] returns gives back rate [R]
    and exactly [N] samples; a finite sample comes back within [2 / 32768] of
    its value clamped to [[-1, 1]] (so of itself when it is in [[-1, 1]]),
    and within [1 / 32768] when it is not positive. *)
Theorem wav_roundtrip (samples : list JS.number) (sampleRate : Z) :
  (0 <= sampleRate < 4294967296)%Z ->
  (36 + 2 * Z.of_nat (length samples) < 4294967296)%Z ->
  exists bytes out,
    encodeWav samples sampleRate = Normal bytes
    /\ parseWav bytes = Some (sampleRate, out)
    /\ length out = length samples
    /\ forall i s, nth_error samples i = Some (JS.Fin s) ->
         exists d, nth_error out i = Some d
                   /\ Qabs (clampUnit s - d) < 2 # 32768
                   /\ (-1 <= s <= 1 -> Qabs (s - d) < 2 # 32768)
                   /\ (-1 <= s <= 0 -> Qabs (s - d) < 1 # 32768).
Proof.
  intros HR HN.
  exists (header (length samples) sampleRate ++ pcm samples), (map decoded samples).
  split; [apply encodeWav_bytes|].
  split.
  { rewrite parseWav_encoded by lia. now rewrite Z.mod_small by lia. }
  split; [apply length_map|].
  intros i s Hi. exists (decoded (JS.Fin s)).
  split; [now rewrite nth_error_map, Hi|].
  destruct (decoded_close s) as [H2 H1].
  split; [exact H2|]. split.
  - intros Hs. rewrite <- (clampUnit_id s Hs) at 1. exact H2.
  - intros Hs.
    assert (Hs' : -1 <= s <= 1) by lra.
    pose proof (clampUnit_id s Hs') as E.
    rewrite <- E at 1. apply H1. lra.
Qed.

(** Three samples at 44.1 kHz, the second one being the sample that breaks
    the bound of [1 / 32768]. *)
Lemma wav_roundtrip_witness :
  exists bytes out,
    encodeWav [JS.Fin (-0.25); JS.Fin (32769 # 16777216); JS.Fin 1] 44100 = Normal bytes
    /\ parseWav bytes = Some (44100%Z, out)
    /\ length out = 3%nat
    /\ forall i s,
         nth_error [JS.Fin (-0.25); JS.Fin (32769 # 16777216); JS.Fin 1] i = Some (JS.Fin s) ->
         exists d, nth_error out i = Some d
                   /\ Qabs (clampUnit s - d) < 2 # 32768
                   /\ (-1 <= s <= 1 -> Qabs (s - d) < 2 # 32768)
                   /\ (-1 <= s <= 0 -> Qabs (s - d) < 1 # 32768).
Proof.
  apply (wav_roundtrip [JS.Fin (-0.25); JS.Fin (32769 # 16777216); JS.Fin 1] 44100);
    cbn; lia.
Defined.

(** The same sample under the other common reading of a stored value, [v /
    32767] for a positive [v]: the error is still above [1 / 32768]. *)
Example roundtrip_error_other_scaling :
  ~ Qabs ((32769 # 16777216) - (63 # 32767)) <= 1 # 32768.
Proof. intros H. vm_compute in H. apply H. reflexivity. Qed.

End WavFacts.

(** ** The speech synthesizer *)

Module SynthFacts.
Import Synth.

(** *** Words and phonemes *)

Lemma truthy_rev (s : jsstring) : truthy (rev s) = truthy s.
Proof.
  destruct s as [|c s]; [reflexivity|]. cbn.
  destruct (rev s); reflexivity.
Qed.

Lemma split_count (text current : jsstring) (inSeparator : bool) :
  (inSeparator = true -> current = []) ->
  length (filter truthy (splitWhiteSpace_from current inSeparator text))
  = ((if truthy current then 1 else 0)
     + countWordStarts (negb (truthy current)) text)%nat.
Proof.
  revert current inSeparator.
  induction text as [|c rest IH]; intros current inSeparator Hsep.
  - cbn. rewrite truthy_rev. destruct (truthy current); reflexivity.
  - cbn [splitWhiteSpace_from countWordStarts].
    destruct (isWhiteSpace c).
    + destruct inSeparator.
      * rewrite (Hsep eq_refl). rewrite IH by reflexivity. reflexivity.
      * cbn [filter]. rewrite truthy_rev.
        destruct (truthy current); cbn [length]; rewrite IH by reflexivity;
          reflexivity.
    + rewrite IH by discriminate. cbn [truthy negb].
      destruct (truthy current); cbn; lia.
Qed.

(** [text.split(/\s+/).filter(Boolean).length] counts the word starts. *)
Lemma words_length (text : jsstring) : length (words text) = wordCount text.
Proof.
  unfold words, splitWhiteSpace, wordCount.
  rewrite split_count by discriminate. reflexivity.
Qed.

Lemma phonemes_length (text : jsstring) : length (phonemes text) = phonemeCount text.
Proof.
  unfold phonemes, phonemeCount.
  induction text as [|c rest IH]; [reflexivity|].
  cbn. destruct (isPhoneme c); cbn; now rewrite IH.
Qed.

(** Leading, trailing and repeated white space adds no word; digits and
    punctuation are no phonemes. *)
Example words_and_phonemes :
  words (ofString "  Hi,   there 42 ")
  = [ofString "Hi,"; ofString "there"; ofString "42"]
  /\ phonemes (ofString "  Hi,   there 42 ") = ofString "  Hi   there  ".
Proof. split; reflexivity. Qed.

(** *** Durations and lengths, in binary64 *)

Lemma phonemeDuration_value (ch : Z) :
  phonemeDuration ch = if (ch =? 32)%Z then 0.08%float else 0.06%float.
Proof.
  unfold phonemeDuration. destruct (ch =? 32)%Z; vm_compute; reflexivity.
Qed.

Lemma burstLength_value (ch : Z) :
  burstLength ch = if (ch =? 32)%Z then 3840%Z else 2880%Z.
Proof.
  unfold burstLength. rewrite phonemeDuration_value.
  destruct (ch =? 32)%Z; vm_compute; reflexivity.
Qed.

Lemma overlap_value : overlap = 720%Z.
Proof. vm_compute. reflexivity. Qed.

Lemma burstLength_bounds (ch : Z) : (overlap < burstLength ch <= 3840)%Z.
Proof.
  rewrite burstLength_value, overlap_value. destruct (ch =? 32)%Z; lia.
Qed.

(** *** Where the loop writes *)

Lemma addAt_length (l : list float) (i : nat) (v : float) :
  length (addAt l i v) = length l.
Proof.
  revert i. induction l as [|x l IH]; intros [|i]; cbn; auto.
Qed.

Lemma addSample_length (i : Z) (v : float) (b : Buffer) :
  length (samples (addSample i v b)) = length (samples b).
Proof.
  unfold addSample. cbn. destruct (0 <=? i)%Z; auto using addAt_length.
Qed.

Section Waveform.

Variable burstSample : Z -> Z -> Z -> float.

Lemma writeBurst_spec (remaining : nat) (n freq len pos : Z) (b : Buffer) :
  let b' := writeBurst burstSample remaining n freq len pos b in
  let L := Z.of_nat (length (samples b)) in
  length (samples b') = length (samples b)
  /\ stores b'
     = rev (map (fun k => (pos + n + Z.of_nat k)%Z)
              (seq 0 (Nat.min remaining (Z.to_nat (L - pos - n)))))
       ++ stores b.
Proof.
  revert n b. induction remaining as [|r IH]; intros n b; cbn zeta.
  - split; reflexivity.
  - cbn [writeBurst].
    destruct (pos + n <? Z.of_nat (length (samples b)))%Z eqn:G.
    + apply Z.ltb_lt in G.
      specialize (IH (n + 1)%Z (addSample (pos + n) (burstSample freq n len) b)).
      cbn zeta in IH. rewrite addSample_length in IH.
      destruct IH as [IHl IHs]. split; [exact IHl|].
      rewrite IHs.
      replace (Z.to_nat (Z.of_nat (length (samples b)) - pos - n))
        with (S (Z.to_nat (Z.of_nat (length (samples b)) - pos - (n + 1)))) by lia.
      cbn [Nat.min seq map rev stores addSample].
      rewrite <- seq_shift, map_map, <- app_assoc. cbn [app].
      f_equal; [|f_equal; lia].
      f_equal. apply map_ext. intros k. lia.
    + apply Z.ltb_ge in G. split; [reflexivity|].
      replace (Z.to_nat (Z.of_nat (length (samples b)) - pos - n)) with O by lia.
      rewrite Nat.min_0_r. reflexivity.
Qed.

Lemma phonemeStep_spec (st : Loop) (ch : Z) :
  let L := Z.of_nat (length (samples (buffer st))) in
  length (samples (buffer (phonemeStep burstSample st ch))) = length (samples (buffer st))
  /\ stores (buffer (phonemeStep burstSample st ch))
     = rev (burstIndices L (position st) (burstLength ch)) ++ stores (buffer st)
  /\ position (phonemeStep burstSample st ch)
     = (position st + (burstLength ch - overlap))%Z.
Proof.
  cbn zeta. unfold phonemeStep. cbn [buffer position].
  destruct (writeBurst_spec (Z.to_nat (burstLength ch)) 0 (frequency ch) (burstLength ch)
              (position st) (buffer st)) as [Hl Hs].
  split; [exact Hl|]. split; [|reflexivity].
  rewrite Hs. unfold burstIndices. f_equal. f_equal.
  replace (Nat.min (Z.to_nat (burstLength ch))
             (Z.to_nat (Z.of_nat (length (samples (buffer st))) - position st - 0)))
    with (Z.to_nat (Z.min (burstLength ch)
                      (Z.of_nat (length (samples (buffer st))) - position st))) by lia.
  apply map_ext. intros k. lia.
Qed.

(** The outer loop from any state: any buffer, any position. *)
Lemma loop_spec (chs : jsstring) (st : Loop) :
  let L := Z.of_nat (length (samples (buffer st))) in
  let st' := fold_left (phonemeStep burstSample) chs st in
  length (samples (buffer st')) = length (samples (buffer st))
  /\ stores (buffer st') = rev (expectedStores L (position st) chs) ++ stores (buffer st).
Proof.
  revert st. induction chs as [|ch rest IH]; intros st; cbn zeta.
  - split; reflexivity.
  - cbn [fold_left expectedStores].
    destruct (phonemeStep_spec st ch) as (Hl & Hs & Hp).
    specialize (IH (phonemeStep burstSample st ch)). cbn zeta in IH.
    rewrite Hl, Hs, Hp in IH. destruct IH as [IHl IHs].
    split; [exact IHl|].
    rewrite IHs, rev_app_distr, <- app_assoc. reflexivity.
Qed.

End Waveform.

Lemma burstIndices_in_bounds (L pos len : Z) :
  (0 <= pos)%Z -> Forall (fun i => (0 <= i < L)%Z) (burstIndices L pos len).
Proof.
  intros Hpos. unfold burstIndices. apply Forall_forall. intros i Hi.
  apply in_map_iff in Hi. destruct Hi as (k & <- & Hk).
  apply in_seq in Hk. cbv beta. lia.
Qed.

Lemma expectedStores_in_bounds (L : Z) (chs : jsstring) (pos : Z) :
  (0 <= pos)%Z -> Forall (fun i => (0 <= i < L)%Z) (expectedStores L pos chs).
Proof.
  revert pos. induction chs as [|ch rest IH]; intros pos Hpos; cbn [expectedStores].
  - constructor.
  - apply Forall_app. split.
    + now apply burstIndices_in_bounds.
    + apply IH. pose proof (burstLength_bounds ch). lia.
Qed.

Lemma expectedStores_length (L : Z) (chs : jsstring) (pos : Z) :
  Z.of_nat (length (expectedStores L pos chs)) = storeCount L pos chs.
Proof.
  revert pos. induction chs as [|ch rest IH]; intros pos; cbn [expectedStores storeCount].
  - reflexivity.
  - rewrite length_app, Nat2Z.inj_add, IH. f_equal.
    unfold burstIndices. rewrite length_map, length_seq. lia.
Qed.

(** The stores of the whole synthesis, in program order; the buffer keeps the
    length it was allocated with. *)
Lemma synthesisLoop_stores (burstSample : Z -> Z -> Z -> float) (text : jsstring) :
  let final := buffer (synthesisLoop burstSample text) in
  length (samples final) = Z.to_nat (bufferLength text)
  /\ rev (stores final)
     = expectedStores (Z.of_nat (length (samples final))) 0 (phonemes text).
Proof.
  cbv zeta. unfold synthesisLoop.
  destruct (loop_spec burstSample (phonemes text) (initialLoop text)) as [Hl Hs].
  rewrite Hl, Hs. cbn [initialLoop buffer samples stores position].
  rewrite repeat_length. split; [reflexivity|].
  now rewrite app_nil_r, rev_involutive.
Qed.

(** *** The reported duration *)

(** C2, as stated, fails on "Hi": the synthesizer reports 0.98 s, that is
    [max(2 * 0.055, 0.9) + 1 * 0.08], and allocates 47040 samples for it,
    where the sum of the per-phoneme durations plus the pause budget is
    [0.06 + 0.06 + 0.08 = 0.2] s: more than 0.7 s apart. *)
Lemma duration_Hi_is_not_the_sum :
  let text := ofString "Hi" in
  let speech := synthesizeSpeech (fun _ _ _ => 0%float) text in
  speechDuration speech = 0.98%float
  /\ bufferLength text = 47040%Z
  /\ specDuration text = 0.2%float
  /\ speechDuration speech <> specDuration text
  /\ (0.7 <? speechDuration speech - specDuration text)%float = true.
Proof.
  cbv zeta. cbn [speechDuration synthesizeSpeech].
  assert (E1 : fullDuration (ofString "Hi") = 0.98%float) by (vm_compute; reflexivity).
  assert (E2 : specDuration (ofString "Hi") = 0.2%float) by (vm_compute; reflexivity).
  rewrite E1, E2.
  split; [reflexivity|]. split; [vm_compute; reflexivity|]. split; [reflexivity|].
  split; [|vm_compute; reflexivity].
  intros H. apply (f_equal Prim2SF) in H. vm_compute in H. discriminate.
Qed.

(** C2, amended.  For every input text the duration the synthesizer reports
    is [Math.max(P * 0.055, 0.9) + W * 0.08] seconds, for [P] the number of
    letters and spaces of the text and [W] its number of words, and the
    waveform is given [Math.floor(48000 * duration)] samples; the per-phoneme
    durations, 0.08 s for a space and 0.06 s for a letter (the floor of
    0.04 s never binds), only set the length of each burst, 3840 or 2880
    samples. *)
Theorem speech_duration (burstSample : Z -> Z -> Z -> float) (text : jsstring) :
  let speech := synthesizeSpeech burstSample text in
  let P := F64.ofZ (Z.of_nat (phonemeCount text)) in
  let W := F64.ofZ (Z.of_nat (wordCount text)) in
  speechDuration speech = (F64.max (P * 0.055) 0.9 + W * 0.08)%float
  /\ length (samples (buffer (synthesisLoop burstSample text)))
     = Z.to_nat (floorLength (48000 * speechDuration speech)%float)
  /\ (forall ch, phonemeDuration ch = if (ch =? 32)%Z then 0.08%float else 0.06%float)
  /\ (forall ch, burstLength ch = if (ch =? 32)%Z then 3840%Z else 2880%Z).
Proof.
  cbv zeta. cbn [speechDuration synthesizeSpeech].
  split; [|split; [|split]].
  - unfold fullDuration, baseDuration, lengthOf.
    now rewrite words_length, phonemes_length.
  - destruct (synthesisLoop_stores burstSample text) as [Hl _]. exact Hl.
  - exact phonemeDuration_value.
  - exact burstLength_value.
Qed.

(** The container of a synthesized text: 44 bytes and two per sample. *)
Lemma synthesizeSpeech_blob (burstSample : Z -> Z -> Z -> float) (text : jsstring) :
  exists bytes,
    blob (synthesizeSpeech burstSample text) = Normal bytes
    /\ length bytes = (44 + Z.to_nat (bufferLength text) * 2)%nat.
Proof.
  cbn [blob synthesizeSpeech].
  destruct (WavFacts.encodeWav_length
              (map F64.toNumber (samples (buffer (synthesisLoop burstSample text))))
              48000) as (bytes & E & L).
  exists bytes. split; [exact E|].
  rewrite L, length_map.
  destruct (synthesisLoop_stores burstSample text) as [Hl _]. now rewrite Hl.
Qed.

(** *** Memory safety of the sample loop *)

(** The guard alone keeps the stores inside: whatever buffer the loop is
    started on, and from any position that is not negative. *)
Lemma loop_stores_in_bounds (burstSample : Z -> Z -> Z -> float)
  (chs : jsstring) (st : Loop) :
  (0 <= position st)%Z -> stores (buffer st) = [] ->
  Forall (fun i => (0 <= i < Z.of_nat (length (samples (buffer st))))%Z)
    (stores (buffer (fold_left (phonemeStep burstSample) chs st))).
Proof.
  intros Hpos Hnil.
  destruct (loop_spec burstSample chs st) as [_ Hst].
  rewrite Hst, Hnil, app_nil_r. apply Forall_rev.
  now apply expectedStores_in_bounds.
Qed.

(** C10.  Every index the sample loop assigns to lies inside the allocated
    sample buffer, for every text (and whatever the waveform): burst after
    burst, the loop stores at [position], [position + 1], ... and stops at
    the end of the burst or of the buffer, whichever comes first.  The guard
    matters: the bursts of a text can add
    up to more samples than the buffer has (twenty letters: 57600 against
    56640), and a burst can run into the end of the buffer, where the guard
    cuts it (fewer stores than the bursts add up to). *)
Theorem synthesis_stores_in_bounds (burstSample : Z -> Z -> Z -> float) (text : jsstring) :
  let final := buffer (synthesisLoop burstSample text) in
  Forall (fun i => (0 <= i < Z.of_nat (length (samples final)))%Z) (stores final)
  /\ length (samples final) = Z.to_nat (bufferLength text)
  /\ rev (stores final)
     = expectedStores (Z.of_nat (length (samples final))) 0 (phonemes text)
  /\ (bufferLength twentyLetters < summedBurstLengths (phonemes twentyLetters))%Z
  /\ (Z.of_nat (length (stores (buffer (synthesisLoop burstSample spacedOut))))
      < summedBurstLengths (phonemes spacedOut))%Z.
Proof.
  cbv zeta.
  destruct (synthesisLoop_stores burstSample text) as [Hl Hs].
  split; [|split; [exact Hl|split; [exact Hs|split]]].
  - rewrite <- (rev_involutive (stores _)). apply Forall_rev.
    rewrite Hs. apply expectedStores_in_bounds. lia.
  - vm_compute. reflexivity.
  - destruct (synthesisLoop_stores burstSample spacedOut) as [Hl' Hs'].
    rewrite <- length_rev, Hs', expectedStores_length, Hl'.
    vm_compute. reflexivity.
Qed.

(** The cut burst of [spacedOut]: the last letter starts at 55200 in a buffer
    of 57839 samples, so only 2639 of its 2880 samples are written: 70799
    stores in all, 241 short of the 71040 the bursts add up to. *)
Example spacedOut_last_burst :
  bufferLength spacedOut = 57839%Z
  /\ storeCount (bufferLength spacedOut) 0 (phonemes spacedOut) = 70799%Z
  /\ summedBurstLengths (phonemes spacedOut) = 71040%Z.
Proof. vm_compute. repeat split. Qed.

End SynthFacts.

(** ** The clamp on binary64 numbers *)

Module Animator64Facts.
Import Animator64.

Lemma SFcompare_antisym (x y : spec_float) (c : comparison) :
  SFcompare x y = Some c -> SFcompare y x = Some (CompOpp c).
Proof.
  destruct x as [sx|sx| |sx mx ex], y as [sy|sy| |sy my ey]; cbn;
    try discriminate;
    try (intros [= <-]; try destruct sx; try destruct sy; reflexivity).
  intros [= <-]. f_equal.
  pose proof (Pos.compare_cont_antisym mx my Eq) as H. cbn [CompOpp] in H.
  destruct sx, sy; try reflexivity;
    rewrite (Z.compare_antisym ex ey);
    destruct (ex ?= ey)%Z; cbn [CompOpp]; try reflexivity.
  - change (PosDef.Pos.compare_cont Eq my mx) with (Pos.compare_cont Eq my mx).
    rewrite <- H. reflexivity.
  - change (PosDef.Pos.compare_cont Eq my mx) with (Pos.compare_cont Eq my mx).
    rewrite <- H. reflexivity.
Qed.

(** What the primitive comparisons say of two numbers. *)
Lemma compare_total (x y : float) :
  is_nan x = false -> is_nan y = false ->
  exists c, SFcompare (Prim2SF x) (Prim2SF y) = Some c.
Proof.
  unfold is_nan. rewrite !eqb_spec. unfold SFeqb.
  destruct (Prim2SF x) as [sx|sx| |sx mx ex], (Prim2SF y) as [sy|sy| |sy my ey]; cbn;
    try discriminate; intros _ _; eexists; reflexivity.
Qed.

Lemma leb_refl (x : float) : is_nan x = false -> (x <=? x)%float = true.
Proof.
  unfold is_nan. rewrite eqb_spec, leb_spec. unfold SFeqb, SFleb.
  destruct (SFcompare (Prim2SF x) (Prim2SF x)) as [[| |]|]; cbn; congruence.
Qed.

Lemma ltb_leb (x y : float) : (x <? y)%float = true -> (x <=? y)%float = true.
Proof.
  rewrite ltb_spec, leb_spec. unfold SFltb, SFleb.
  destruct (SFcompare (Prim2SF x) (Prim2SF y)) as [[| |]|]; congruence.
Qed.

Lemma neither_below (x y : float) :
  is_nan x = false -> is_nan y = false ->
  (x <? y)%float = false -> (y <? x)%float = false ->
  (x <=? y)%float = true /\ (y <=? x)%float = true.
Proof.
  intros Hx Hy. destruct (compare_total x y Hx Hy) as [c Hc].
  pose proof (SFcompare_antisym _ _ _ Hc) as Hc'.
  rewrite !ltb_spec, !leb_spec. unfold SFltb, SFleb. rewrite Hc, Hc'.
  destruct c; cbn; intros; try discriminate; split; reflexivity.
Qed.

(** [Math.min] and [Math.max] of two numbers return one of them, below
    (above) both. *)
Lemma min_spec (a b : float) :
  is_nan a = false -> is_nan b = false ->
  (F64.min a b = a \/ F64.min a b = b)
  /\ (F64.min a b <=? a)%float = true /\ (F64.min a b <=? b)%float = true.
Proof.
  intros Ha Hb. unfold F64.min. rewrite Ha, Hb. cbn [orb].
  destruct (a <? b)%float eqn:L1.
  - auto using leb_refl, ltb_leb.
  - destruct (b <? a)%float eqn:L2.
    + auto using leb_refl, ltb_leb.
    + destruct (neither_below a b Ha Hb L1 L2).
      destruct (get_sign a); auto using leb_refl.
Qed.

Lemma max_spec (a b : float) :
  is_nan a = false -> is_nan b = false ->
  (F64.max a b = a \/ F64.max a b = b)
  /\ (a <=? F64.max a b)%float = true /\ (b <=? F64.max a b)%float = true.
Proof.
  intros Ha Hb. unfold F64.max. rewrite Ha, Hb. cbn [orb].
  destruct (a <? b)%float eqn:L1.
  - auto using leb_refl, ltb_leb.
  - destruct (b <? a)%float eqn:L2.
    + auto using leb_refl, ltb_leb.
    + destruct (neither_below a b Ha Hb L1 L2).
      destruct (get_sign a); auto using leb_refl.
Qed.

(** On binary64 numbers too, [clamp01] of anything but [NaN] is in
    [[0, 1]]; [NaN] goes through. *)
Lemma clamp01_binary64 (value : float) :
  is_nan value = false ->
  is_nan (clamp01 value) = false
  /\ (0 <=? clamp01 value)%float = true /\ (clamp01 value <=? 1)%float = true.
Proof.
  intros Hv. unfold clamp01.
  destruct (min_spec 1 value eq_refl Hv) as (Hm & Hm1 & _).
  assert (Hn : is_nan (F64.min 1 value) = false) by (destruct Hm as [-> | ->]; auto).
  destruct (max_spec 0 (F64.min 1 value) eq_refl Hn) as (HM & HM0 & _).
  split; [destruct HM as [-> | ->]; auto|].
  split; [exact HM0|].
  destruct HM as [-> | ->]; [reflexivity | exact Hm1].
Qed.

Lemma clamp01_binary64_NaN (value : float) :
  is_nan value = true -> clamp01 value = nan.
Proof.
  intros Hv. unfold clamp01, F64.min. rewrite Hv. reflexivity.
Qed.

(** The mouth openness is in [[0, 1]] whenever the clamped expression is a
    number. *)
Lemma mouthOpen_binary64 (audioLevel happy sad surprised : float) :
  is_nan (mouthOpenArgument audioLevel happy sad surprised) = false ->
  (0 <=? mouthOpen audioLevel happy sad surprised)%float = true
  /\ (mouthOpen audioLevel happy sad surprised <=? 1)%float = true.
Proof.
  intros H. apply clamp01_binary64 in H. tauto.
Qed.

(** The boundary combination of the spec, and the corners of the slider
    ranges, as the browser computes them. *)
Example mouthOpen_binary64_boundary :
  mouthOpen 1 0 100 100 = 0.9555555555555557%float
  /\ mouthOpen 1 100 0 100 = 1%float
  /\ mouthOpen 0 0 100 0 = 0%float
  /\ mouthOpen 1 0 0 0 = 0.65%float.
Proof. vm_compute. repeat split. Qed.

End Animator64Facts.

(** ** The drawn face: blink timing and geometry *)

Module FaceFacts.
Import Animator Face.




(** *** A blink runs to its end *)

Lemma advanceBlinkFrames_add (j k : nat) (b : BlinkState) :
  advanceBlinkFrames (j + k) b = advanceBlinkFrames k (advanceBlinkFrames j b).
Proof.
  revert b. induction j as [|j IH]; intros b; cbn; auto.
Qed.

Lemma closing_frame (b : BlinkState) :
  closing b = true ->
  (openness b <= 0.15 /\ advanceBlink b = mkBlink false 0 1)
  \/ (0.15 < openness b /\ closing (advanceBlink b) = true
      /\ openness (advanceBlink b) = openness b - 0.15).
Proof.
  intros C. unfold advanceBlink. rewrite C. cbv zeta.
  case_Qle (openness b - 0.15) 0.
  - left. split; [lra | reflexivity].
  - right. split; [lra|]. split; reflexivity.
Qed.

Lemma closing_reaches_closed (n : nat) :
  forall b : BlinkState,
  closing b = true -> openness b <= 0.15 * inject_Z (Z.of_nat (S n)) ->
  exists k, (1 <= k <= S n)%nat /\ advanceBlinkFrames k b = mkBlink false 0 1.
Proof.
  induction n as [|n IH]; intros b C Hb.
  - destruct (closing_frame b C) as [[_ E] | [L _]].
    + exists 1%nat. split; [lia | exact E].
    + exfalso. change (inject_Z (Z.of_nat 1)) with 1 in Hb. lra.
  - destruct (closing_frame b C) as [[_ E] | (L & C' & E)].
    + exists 1%nat. split; [lia | exact E].
    + destruct (IH (advanceBlink b) C') as (k & Hk & Ek).
      * rewrite E. rewrite (Nat2Z.inj_succ (S n)) in Hb. unfold Z.succ in Hb.
        rewrite inject_Z_plus in Hb. change (inject_Z 1) with 1 in Hb. lra.
      * exists (S k). split; [lia | exact Ek].
Qed.

(** X2.  A blink that has started runs to its end when no new blink is
    scheduled meanwhile: from any closing state with openness in [[0, 1]] the
    eye is fully closed after at most 7 frames, and fully open, at rest, 9
    frames later. *)
Theorem blink_completes (b : BlinkState) :
  closing b = true -> 0 <= openness b <= 1 ->
  exists k, (1 <= k <= 7)%nat
            /\ advanceBlinkFrames k b = mkBlink false 0 1
            /\ advanceBlinkFrames (k + 9) b = mkBlink false 1 1
            /\ advanceBlink (mkBlink false 1 1) = mkBlink false 1 1.
Proof.
  intros C R.
  destruct (closing_reaches_closed 6 b C) as (k & Hk & E).
  - change (inject_Z (Z.of_nat 7)) with 7. lra.
  - exists k. split; [exact Hk|]. split; [exact E|]. split.
    + rewrite advanceBlinkFrames_add, E. vm_compute. reflexivity.
    + reflexivity.
Qed.

Lemma blink_completes_witness :
  exists k, (1 <= k <= 7)%nat
            /\ advanceBlinkFrames k (mkBlink true 0.4 0) = mkBlink false 0 1
            /\ advanceBlinkFrames (k + 9) (mkBlink true 0.4 0) = mkBlink false 1 1
            /\ advanceBlink (mkBlink false 1 1) = mkBlink false 1 1.
Proof.
  apply (blink_completes (mkBlink true 0.4 0)); [reflexivity | cbn; lra].
Defined.



End FaceFacts.

(** ** The page component *)

Module PageFacts.
Import Page.

(** *** Idle motion *)




(** *** Gaze *)




(** *** The stats line *)

Lemma sortDesc_head (l : list (EmotionKey * Q)) : hd_error (sortDesc l) = firstMax l.
Proof.
  induction l as [|x rest IH]; [reflexivity|].
  cbn [sortDesc fold_right firstMax]. fold (sortDesc rest). rewrite <- IH.
  destruct (sortDesc rest) as [|y sorted]; cbn [insertDesc hd_error]; [reflexivity|].
  destruct (Qltb (snd x) (snd y)); reflexivity.
Qed.

Lemma firstMax_spec (l : list (EmotionKey * Q)) (key : EmotionKey) (value : Q) :
  firstMax l = Some (key, value) ->
  exists before after,
    l = before ++ (key, value) :: after
    /\ Forall (fun e => snd e < value) before
    /\ Forall (fun e => snd e <= value) after.
Proof.
  revert key value. induction l as [|x rest IH]; intros key value; cbn [firstMax].
  - discriminate.
  - destruct (firstMax rest) as [[k v]|] eqn:E.
    + destruct (IH k v eq_refl) as (before & after & -> & Hb & Ha).
      case_Qlt (snd x) (snd (k, v)).
      * intros [= <- <-].
        exists (x :: before), after. split; [reflexivity|]. split; [|exact Ha].
        constructor; assumption.
      * intros [= ->].
        exists [], (before ++ (k, v) :: after). cbn [snd] in *.
        split; [reflexivity|]. split; [constructor|].
        apply Forall_app. split.
        -- eapply Forall_impl; [|exact Hb]. cbv beta. intros e He. cbn [snd]. lra.
        -- constructor; [cbn [snd]; lra|].
           eapply Forall_impl; [|exact Ha]. cbv beta. intros e He. cbn [snd]. lra.
    + intros [= <-]. destruct rest as [|y rest'].
      * exists [], []. repeat split; constructor.
      * exfalso. cbn [firstMax] in E.
        destruct (firstMax rest') as [z|]; [destruct (Qltb (snd y) (snd z))|];
          discriminate.
Qed.

(** X6.  [emotionBlend] names an emotion of greatest weight, with the weight
    rounded to the nearest integer: every emotion listed before it (in the
    order happy, sad, angry, surprised, neutral) is strictly lighter and none
    after it is heavier; "neutral" is shown as "Calm". *)
Theorem emotionBlend_names_heaviest (happy sad angry surprised neutral : Q) :
  exists key value before after,
    emotionBlend happy sad angry surprised neutral = Some (labelMap key, round value)
    /\ entries happy sad angry surprised neutral = before ++ (key, value) :: after
    /\ Forall (fun e => snd e < value) before
    /\ Forall (fun e => snd e <= value) after
    /\ inject_Z (round value) - (1 # 2) <= value < inject_Z (round value) + (1 # 2).
Proof.
  unfold emotionBlend.
  pose proof (sortDesc_head (entries happy sad angry surprised neutral)) as H.
  destruct (sortDesc (entries happy sad angry surprised neutral)) as [|[key value] sorted] eqn:E.
  - exfalso. cbn [hd_error] in H. unfold entries in H. cbn [firstMax] in H.
    repeat match type of H with
           | context [if ?c then _ else _] => destruct c
           end; discriminate.
  - cbn [hd_error] in H. symmetry in H.
    destruct (firstMax_spec _ key value H) as (before & after & Hl & Hb & Ha).
    exists key, value, before, after.
    split; [reflexivity|]. split; [exact Hl|]. split; [exact Hb|]. split; [exact Ha|].
    unfold round.
    pose proof (Qfloor_le (value + (1 # 2))) as L.
    pose proof (Qlt_floor (value + (1 # 2))) as U.
    rewrite inject_Z_plus in U. change (inject_Z 1) with 1 in U. lra.
Qed.

(** The state the page starts with, and a tie. *)
Example emotionBlend_examples :
  emotionBlend 52 12 10 24 48 = Some ("Happy"%string, 52%Z)
  /\ emotionBlend 10 20.5 20.5 3 20.5 = Some ("Sad"%string, 21%Z)
  /\ emotionBlend 0 0 0 0 0.4 = Some ("Calm"%string, 0%Z).
Proof. vm_compute. repeat split. Qed.


(** *** The random pose *)





End PageFacts.

(** ** The media controls *)

Module MediaControlsFacts.
Import MediaControls.






(** 754.6 s is shown as 12:34, 59.99 s as 0:59 and one hour as 60:00. *)
Example formatTime_examples :
  formatTime (JS.Fin 754.6) = "12:34"%string
  /\ formatTime (JS.Fin 59.99) = "0:59"%string
  /\ formatTime (JS.Fin 3600) = "60:00"%string
  /\ formatTime (JS.Fin 0.5) = "0:00"%string.
Proof. vm_compute. repeat split. Qed.

Lemma progress_bounds (c d : Q) :
  0 <= c -> 0 < d ->
  exists p : Q,
    progress (JS.Fin c) (JS.Fin d) = JS.Fin p
    /\ 0 <= p <= 100
    /\ (c <= d -> p == c / d * 100)
    /\ (d <= c -> p == 100)
    /\ progress (JS.Fin c) (JS.Fin 0) = JS.Fin 0
    /\ progress (JS.Fin c) JS.NaN = JS.Fin 0.
Proof.
  intros Hc Hd. unfold progress, falsy.
  assert (Ed : Qeq_bool d 0 = false).
  { destruct (Qeq_bool d 0) eqn:E; [|reflexivity].
    apply Qeq_bool_iff in E. lra. }
  rewrite Ed. cbn [JS.div]. rewrite Ed. cbn [JS.mul JS.min].
  assert (Hf : 0 <= c / d) by (apply Qle_shift_div_l; lra).
  assert (H1 : c <= d -> c / d <= 1) by (intros; apply Qle_shift_div_r; lra).
  assert (H2 : d <= c -> 1 <= c / d) by (intros; apply Qle_shift_div_l; lra).
  case_Qle 100 (c / d * 100).
  - exists 100. split; [reflexivity|]. split; [lra|].
    split; [intros H; specialize (H1 H); lra|]. split; [reflexivity|].
    split; reflexivity.
  - exists (c / d * 100). split; [reflexivity|]. split; [lra|].
    split; [reflexivity|]. split; [intros H; specialize (H2 H); lra|].
    split; reflexivity.
Qed.

(** X10.  The progress bar is never wider than the track: for a playback
    position that is not negative and a positive duration the width is
    between 0 and 100 percent, and it is the played fraction as long as the
    position is within the duration; without a duration (0 or [NaN]) it
    is 0. *)
Theorem progress_within_track (c d : Q) :
  0 <= c -> 0 < d ->
  exists p : Q,
    progress (JS.Fin c) (JS.Fin d) = JS.Fin p
    /\ 0 <= p <= 100
    /\ (c <= d -> p == c / d * 100)
    /\ (d <= c -> p == 100)
    /\ progress (JS.Fin c) (JS.Fin 0) = JS.Fin 0
    /\ progress (JS.Fin c) JS.NaN = JS.Fin 0.
Proof. exact (progress_bounds c d). Qed.

Lemma progress_within_track_witness :
  exists p : Q,
    progress (JS.Fin 12.5) (JS.Fin 30) = JS.Fin p
    /\ 0 <= p <= 100
    /\ (12.5 <= 30 -> p == 12.5 / 30 * 100)
    /\ (30 <= 12.5 -> p == 100)
    /\ progress (JS.Fin 12.5) (JS.Fin 0) = JS.Fin 0
    /\ progress (JS.Fin 12.5) JS.NaN = JS.Fin 0.
Proof.
  apply (progress_within_track 12.5 30); lra.
Defined.

End MediaControlsFacts.

(** ** Words, trimming and the pitch of the synthesizer *)

Module GenerateFacts.
Import Synth Generate.

Lemma truthy_false (s : jsstring) : truthy s = false -> s = [].
Proof. destruct s; [reflexivity | discriminate]. Qed.

Lemma truthy_true (s : jsstring) : truthy s = true -> s <> [].
Proof. destruct s; [discriminate | intros _; discriminate]. Qed.

(** The pieces [split] and [filter(Boolean)] keep: none is empty, none holds
    white space, and together they are the text without its white space. *)
Lemma split_pieces (text current : jsstring) (inSeparator : bool) :
  (inSeparator = true -> current = []) ->
  Forall (fun c => isWhiteSpace c = false) current ->
  let pieces := filter truthy (splitWhiteSpace_from current inSeparator text) in
  Forall (fun w => w <> [] /\ Forall (fun c => isWhiteSpace c = false) w) pieces
  /\ concat pieces = rev current ++ filter (fun c => negb (isWhiteSpace c)) text.
Proof.
  revert current inSeparator.
  induction text as [|c rest IH]; intros current inSeparator Hsep Hcur; cbv zeta.
  - cbn [splitWhiteSpace_from filter]. destruct (truthy (rev current)) eqn:T.
    + split.
      * constructor; [|constructor]. split; [now apply truthy_true|].
        now apply Forall_rev.
      * cbn. now rewrite app_nil_r.
    + apply truthy_false in T. rewrite T. split; [constructor | reflexivity].
  - cbn [splitWhiteSpace_from]. cbn [filter]. destruct (isWhiteSpace c) eqn:W; cbn [negb].
    + destruct inSeparator.
      * rewrite (Hsep eq_refl). apply (IH [] true); [reflexivity | constructor].
      * destruct (IH [] true (fun _ => eq_refl) (Forall_nil _)) as [F C].
        cbn [filter]. destruct (truthy (rev current)) eqn:T.
        -- split.
           ++ constructor; [|exact F]. split; [now apply truthy_true|].
              now apply Forall_rev.
           ++ cbn [concat]. rewrite C. reflexivity.
        -- apply truthy_false in T. rewrite T. split; [exact F | exact C].
    + destruct (IH (c :: current) false) as [F C]; [discriminate | now constructor |].
      split; [exact F|]. rewrite C. cbn [rev]. now rewrite <- app_assoc.
Qed.

(** X11.  The words [synthesizeSpeech] counts are real words: none is empty,
    none contains a white-space code unit, and put end to end they are the
    text with all its white space removed, in order. *)
Theorem words_partition_text (text : jsstring) :
  Forall (fun w => w <> [] /\ Forall (fun c => isWhiteSpace c = false) w) (words text)
  /\ concat (words text) = filter (fun c => negb (isWhiteSpace c)) text
  /\ length (words text) = wordCount text.
Proof.
  destruct (split_pieces text [] false) as [F C]; [discriminate | constructor |].
  split; [exact F|]. split; [exact C|]. apply SynthFacts.words_length.
Qed.

(** *** Trimming *)

Lemma trimStart_split (t : jsstring) :
  exists pre, forallb isWhiteSpace pre = true /\ t = pre ++ trimStart t.
Proof.
  induction t as [|c rest (pre & Hpre & E)].
  - exists []. split; reflexivity.
  - cbn [trimStart]. destruct (isWhiteSpace c) eqn:W.
    + exists (c :: pre). cbn [forallb]. rewrite W, Hpre. split; [reflexivity|].
      cbn. now rewrite <- E.
    + exists []. split; reflexivity.
Qed.

Lemma trimStart_head (t : jsstring) :
  trimStart t = [] \/ exists c v, trimStart t = c :: v /\ isWhiteSpace c = false.
Proof.
  induction t as [|c rest IH]; [now left|].
  cbn [trimStart]. destruct (isWhiteSpace c) eqn:W; [exact IH|].
  right. now exists c, rest.
Qed.

Lemma trimStart_fixed (c : Z) (v : jsstring) :
  isWhiteSpace c = false -> trimStart (c :: v) = c :: v.
Proof. intros W. cbn [trimStart]. now rewrite W. Qed.

Lemma trimStart_idempotent (t : jsstring) : trimStart (trimStart t) = trimStart t.
Proof.
  destruct (trimStart_head t) as [-> | (c & v & -> & W)]; [reflexivity|].
  now apply trimStart_fixed.
Qed.

Lemma trimEnd_split (t : jsstring) :
  exists post, forallb isWhiteSpace post = true /\ t = trimEnd t ++ post.
Proof.
  destruct (trimStart_split (rev t)) as (pre & Hpre & E).
  exists (rev pre). split.
  - rewrite forallb_forall in *. intros x Hx. apply Hpre. now apply in_rev.
  - unfold trimEnd. rewrite <- rev_app_distr, <- E. now rewrite rev_involutive.
Qed.

Lemma trimEnd_idempotent (t : jsstring) : trimEnd (trimEnd t) = trimEnd t.
Proof.
  unfold trimEnd. now rewrite rev_involutive, trimStart_idempotent.
Qed.

(** Trimming the end keeps a first code unit that is not white space. *)
Lemma trimEnd_head (c : Z) (v : jsstring) :
  isWhiteSpace c = false -> exists v', trimEnd (c :: v) = c :: v'.
Proof.
  intros W. destruct (trimEnd_split (c :: v)) as (post & Hpost & E).
  destruct (trimEnd (c :: v)) as [|c' v'].
  - cbn in E. subst post. cbn [forallb] in Hpost. rewrite W in Hpost. discriminate.
  - injection E as <- _. now exists v'.
Qed.

Lemma trim_shape (t : jsstring) :
  trim t = [] \/ exists c v, trim t = c :: v /\ isWhiteSpace c = false.
Proof.
  unfold trim. destruct (trimStart_head t) as [-> | (c & v & -> & W)].
  - now left.
  - right. destruct (trimEnd_head c v W) as [v' E]. now exists c, v'.
Qed.

Lemma trim_split (t : jsstring) :
  exists pre post,
    forallb isWhiteSpace pre = true /\ forallb isWhiteSpace post = true
    /\ t = pre ++ trim t ++ post.
Proof.
  destruct (trimStart_split t) as (pre & Hpre & E).
  destruct (trimEnd_split (trimStart t)) as (post & Hpost & E').
  exists pre, post. split; [exact Hpre|]. split; [exact Hpost|].
  unfold trim. now rewrite <- E', <- E.
Qed.

(** White space in front of a text or behind it adds no word. *)
Lemma words_after_separator (t : jsstring) :
  filter truthy (splitWhiteSpace_from [] true t)
  = filter truthy (splitWhiteSpace_from [] false t).
Proof.
  destruct t as [|c rest]; [reflexivity|].
  cbn [splitWhiteSpace_from]. destruct (isWhiteSpace c); reflexivity.
Qed.

Lemma words_leading (pre t : jsstring) :
  forallb isWhiteSpace pre = true -> words (pre ++ t) = words t.
Proof.
  induction pre as [|c pre IH]; [reflexivity|].
  cbn [forallb]. intros H. apply andb_prop in H as [W H].
  unfold words, splitWhiteSpace in *. cbn [app splitWhiteSpace_from]. rewrite W.
  cbn [rev filter truthy]. rewrite words_after_separator. now apply IH.
Qed.

Lemma only_white_space (post current : jsstring) (inSeparator : bool) :
  (inSeparator = true -> current = []) ->
  forallb isWhiteSpace post = true ->
  filter truthy (splitWhiteSpace_from current inSeparator post) = filter truthy [rev current].
Proof.
  revert current inSeparator.
  induction post as [|c post IH]; intros current inSeparator Hsep H; [reflexivity|].
  cbn [forallb] in H. apply andb_prop in H as [W H].
  cbn [splitWhiteSpace_from]. rewrite W. destruct inSeparator.
  - rewrite (Hsep eq_refl). now apply IH.
  - cbn [filter]. rewrite (IH [] true (fun _ => eq_refl) H). cbn.
    destruct (truthy (rev current)); reflexivity.
Qed.

Lemma words_trailing_from (t post current : jsstring) (inSeparator : bool) :
  (inSeparator = true -> current = []) ->
  forallb isWhiteSpace post = true ->
  filter truthy (splitWhiteSpace_from current inSeparator (t ++ post))
  = filter truthy (splitWhiteSpace_from current inSeparator t).
Proof.
  revert current inSeparator.
  induction t as [|c t IH]; intros current inSeparator Hsep H.
  - cbn [app]. now apply only_white_space.
  - cbn [app splitWhiteSpace_from]. destruct (isWhiteSpace c).
    + destruct inSeparator.
      * now apply IH.
      * cbn [filter]. rewrite (IH [] true (fun _ => eq_refl) H). reflexivity.
    + apply IH; [discriminate | exact H].
Qed.

Lemma words_trailing (t post : jsstring) :
  forallb isWhiteSpace post = true -> words (t ++ post) = words t.
Proof.
  intros H. unfold words, splitWhiteSpace.
  apply words_trailing_from; [discriminate | exact H].
Qed.

Lemma words_trim (t : jsstring) : words (trim t) = words t.
Proof.
  destruct (trim_split t) as (pre & post & Hpre & Hpost & E).
  rewrite E at 2. rewrite (words_leading pre _ Hpre). now rewrite words_trailing.
Qed.

Lemma words_of_white_space (t : jsstring) :
  forallb isWhiteSpace t = true -> words t = [].
Proof.
  intros H. rewrite <- (app_nil_l t). rewrite words_trailing by exact H. reflexivity.
Qed.

(** X12.  What [generateSpeech] lets through: a text of white space only is
    refused with the error message and has no word; any other text reaches
    the synthesizer trimmed, that is without the white space around it and
    with nothing else changed, so with the same words, at least one, and with
    no white space left at either end. *)
Theorem generateSpeech_input (text : jsstring) :
  match generateSpeechInput text with
  | inl message =>
      message = "Enter text to generate speech."%string
      /\ forallb isWhiteSpace text = true /\ words text = []
  | inr trimmed =>
      (exists pre post,
         forallb isWhiteSpace pre = true /\ forallb isWhiteSpace post = true
         /\ text = pre ++ trimmed ++ post)
      /\ trimStart trimmed = trimmed /\ trimEnd trimmed = trimmed
      /\ words trimmed = words text
      /\ (1 <= wordCount trimmed)%nat
  end.
Proof.
  unfold generateSpeechInput. cbv zeta.
  destruct (trim_split text) as (pre & post & Hpre & Hpost & E).
  destruct (trim_shape text) as [T | (c & v & T & W)].
  - rewrite T. cbn [truthy negb]. split; [reflexivity|].
    assert (A : forallb isWhiteSpace text = true).
    { rewrite E, T. cbn [app]. rewrite forallb_app, Hpre, Hpost. reflexivity. }
    split; [exact A | now apply words_of_white_space].
  - pose proof (words_trim text) as Hw. pose proof (trimEnd_idempotent (trimStart text)) as He.
    fold (trim text) in He. rewrite T in *. cbn [truthy negb].
    split; [now exists pre, post|].
    split; [now apply trimStart_fixed|]. split; [exact He|]. split; [exact Hw|].
    unfold wordCount. cbn [countWordStarts]. rewrite W. lia.
Qed.

Example generateSpeech_input_examples :
  generateSpeechInput (ofString "  Hi  there ") = inr (ofString "Hi  there")
  /\ generateSpeechInput (ofString "   ") = inl "Enter text to generate speech."%string
  /\ generateSpeechInput [] = inl "Enter text to generate speech."%string.
Proof. repeat split. Qed.

(** *** Pitch and position *)

(** X13.  Every burst is voiced between 160 Hz and 279 Hz: the fundamental
    [freq] of each phoneme of any text is in that range. *)
Theorem phoneme_pitch_range (text : jsstring) :
  Forall (fun ch => (160 <= frequency ch <= 279)%Z) (phonemes text).
Proof.
  apply Forall_forall. intros ch H. apply filter_In in H as [_ H].
  assert (P : (0 <= ch * 13)%Z).
  { unfold isPhoneme, isLetter in H. lia. }
  pose proof (Z.rem_bound_pos (ch * 13) 120 P ltac:(lia)). unfold frequency. lia.
Qed.

Lemma position_advances (burstSample : Z -> Z -> Z -> float) (text : jsstring) (st : Loop) :
  position (fold_left (phonemeStep burstSample) (phonemes text) st)
  = (position st
     + 2160 * Z.of_nat (length (filter isLetter text))
     + 3120 * Z.of_nat (length (filter (Z.eqb 32) text)))%Z.
Proof.
  revert st. unfold phonemes.
  induction text as [|c rest IH]; intros st; [cbn; lia|].
  cbn [filter]. unfold isPhoneme at 1.
  destruct (isLetter c) eqn:L; cbn [orb].
  - assert (N : (32 =? c)%Z = false) by (unfold isLetter in L; lia).
    rewrite N. cbn [fold_left]. rewrite IH. cbn [phonemeStep position].
    rewrite SynthFacts.burstLength_value, SynthFacts.overlap_value.
    rewrite Z.eqb_sym, N. cbn [length]. lia.
  - rewrite (Z.eqb_sym c 32). destruct (32 =? c)%Z eqn:S.
    + cbn [fold_left]. rewrite IH. cbn [phonemeStep position].
      rewrite SynthFacts.burstLength_value, SynthFacts.overlap_value.
      rewrite Z.eqb_sym, S. cbn [length]. lia.
    + apply IH.
Qed.

(** X14.  Where the synthesis loop ends: each letter moves the write
    position on by 2160 samples (45 ms) and each space by 3120 (65 ms),
    whatever else the text contains, and the buffer keeps the length it was
    allocated with. *)
Theorem synthesis_position (burstSample : Z -> Z -> Z -> float) (text : jsstring) :
  position (synthesisLoop burstSample text)
  = (2160 * Z.of_nat (length (filter isLetter text))
     + 3120 * Z.of_nat (length (filter (Z.eqb 32) text)))%Z
  /\ length (samples (buffer (synthesisLoop burstSample text)))
     = Z.to_nat (bufferLength text).
Proof.
  split.
  - unfold synthesisLoop. rewrite position_advances. cbn [initialLoop position]. lia.
  - apply SynthFacts.synthesisLoop_stores.
Qed.

Example synthesis_position_example :
  position (synthesisLoop (fun _ _ _ => 0%float) (ofString "Hi, you 2!")) = 17040%Z.
Proof. unfold synthesisLoop. rewrite position_advances. reflexivity. Qed.

End GenerateFacts.

(** ** More of the encoder: the quantizer and the bytes *)

Module QuantizerFacts.
Import Wav.

(** The stored integer against the scaled clamped sample: its floor from
    zero up, its ceiling below zero. *)
Lemma storedInt16_bounds (s : Q) :
  let c := clampUnit s in
  let d := inject_Z (storedInt16 (JS.Fin s)) in
  (0 <= c -> d <= c * 32767 /\ c * 32767 < d + 1)
  /\ (c < 0 -> c * 32768 <= d /\ d < c * 32768 + 1).
Proof.
  cbv zeta. pose proof (WavFacts.decoded_error s) as H. cbv zeta in H.
  unfold decoded in H. rewrite WavFacts.Qmake_32768 in H. exact H.
Qed.

Lemma clampUnit_monotone (s t : Q) : s <= t -> clampUnit s <= clampUnit t.
Proof.
  intros H. unfold clampUnit.
  apply Q.max_le_compat_l. now apply Q.min_le_compat_l.
Qed.

Lemma storedInt16_range (s : Q) : (-32768 <= storedInt16 (JS.Fin s) <= 32767)%Z.
Proof.
  destruct (storedInt16_bounds s) as [Hp Hn]. cbv zeta in *.
  pose proof (WavFacts.clampUnit_range s) as Hr.
  set (d := storedInt16 (JS.Fin s)) in *.
  assert (A : -32768 - 1 < inject_Z d /\ inject_Z d < 32767 + 1).
  { destruct (Qlt_le_dec (clampUnit s) 0) as [L|L];
      [destruct (Hn L) | destruct (Hp L)]; split; lra. }
  destruct A as [A1 A2].
  change (-32768 - 1) with (inject_Z (-32769)) in A1.
  change (32767 + 1) with (inject_Z 32768) in A2.
  rewrite <- Zlt_Qlt in A1, A2. lia.
Qed.

(** X15.  The quantizer of [floatTo16BitPCM] keeps the order of the samples
    and saturates: a larger sample is never stored as a smaller integer,
    every stored integer is a 16-bit one, samples from 1 up are stored as
    32767 and samples from -1 down as -32768; zero and [NaN] are stored
    as 0 and the infinities as the two extremes. *)
Theorem quantizer_monotone (s t : Q) :
  s <= t ->
  (storedInt16 (JS.Fin s) <= storedInt16 (JS.Fin t))%Z
  /\ (-32768 <= storedInt16 (JS.Fin s))%Z /\ (storedInt16 (JS.Fin t) <= 32767)%Z
  /\ (1 <= s -> storedInt16 (JS.Fin s) = 32767%Z)
  /\ (t <= -1 -> storedInt16 (JS.Fin t) = (-32768)%Z)
  /\ storedInt16 (JS.Fin 0) = 0%Z /\ storedInt16 JS.NaN = 0%Z
  /\ storedInt16 JS.PInf = 32767%Z /\ storedInt16 JS.NInf = (-32768)%Z.
Proof.
  intros Hst.
  pose proof (clampUnit_monotone s t Hst) as Hc.
  destruct (storedInt16_bounds s) as [Sp Sn]. destruct (storedInt16_bounds t) as [Tp Tn].
  cbv zeta in *.
  pose proof (storedInt16_range s) as Rs. pose proof (storedInt16_range t) as Rt.
  set (ds := storedInt16 (JS.Fin s)) in *. set (dt := storedInt16 (JS.Fin t)) in *.
  split.
  { destruct (Qlt_le_dec (clampUnit t) 0) as [Lt|Lt].
    - destruct (Sn ltac:(lra)) as [_ U]. destruct (Tn Lt) as [L _].
      assert (A : inject_Z ds < inject_Z dt + 1) by lra.
      change 1 with (inject_Z 1) in A. rewrite <- inject_Z_plus, <- Zlt_Qlt in A. lia.
    - destruct (Tp Lt) as [_ U].
      assert (B : inject_Z (-1) < inject_Z dt) by (change (inject_Z (-1)) with (-1 # 1); lra).
      rewrite <- Zlt_Qlt in B.
      destruct (Qlt_le_dec (clampUnit s) 0) as [Ls|Ls].
      + destruct (Sn Ls) as [_ V].
        assert (A : inject_Z ds < inject_Z 1) by (change (inject_Z 1) with 1; lra).
        rewrite <- Zlt_Qlt in A. lia.
      + destruct (Sp Ls) as [L _].
        assert (A : inject_Z ds < inject_Z dt + 1) by lra.
        change 1 with (inject_Z 1) in A. rewrite <- inject_Z_plus, <- Zlt_Qlt in A. lia. }
  split; [lia|]. split; [lia|].
  split.
  { intros H1. assert (E : clampUnit s == 1).
    { unfold clampUnit. rewrite (Q.min_l 1 s) by exact H1.
      rewrite Q.max_r; [reflexivity | lra]. }
    destruct Sp as [_ U]; [lra|].
    assert (A : 32767 < inject_Z ds + 1) by lra.
    change 32767 with (inject_Z 32767) in A. change 1 with (inject_Z 1) in A.
    rewrite <- inject_Z_plus, <- Zlt_Qlt in A. lia. }
  split.
  { intros H1. assert (E : clampUnit t == -1).
    { unfold clampUnit. rewrite (Q.min_r 1 t) by lra.
      rewrite Q.max_l; [reflexivity | lra]. }
    destruct Tn as [_ U]; [lra|].
    assert (A : inject_Z dt < -32768 + 1) by lra.
    change (-32768 + 1) with (inject_Z (-32767)) in A.
    rewrite <- Zlt_Qlt in A. lia. }
  repeat split; reflexivity.
Qed.

Lemma quantizer_monotone_witness :
  (storedInt16 (JS.Fin (-0.25)) <= storedInt16 (JS.Fin 0.5))%Z
  /\ (-32768 <= storedInt16 (JS.Fin (-0.25)))%Z /\ (storedInt16 (JS.Fin 0.5) <= 32767)%Z
  /\ (1 <= -0.25 -> storedInt16 (JS.Fin (-0.25)) = 32767%Z)
  /\ (0.5 <= -1 -> storedInt16 (JS.Fin 0.5) = (-32768)%Z)
  /\ storedInt16 (JS.Fin 0) = 0%Z /\ storedInt16 JS.NaN = 0%Z
  /\ storedInt16 JS.PInf = 32767%Z /\ storedInt16 JS.NInf = (-32768)%Z.
Proof.
  apply (quantizer_monotone (-0.25) 0.5). lra.
Defined.

Example storedInt16_examples :
  map storedInt16 [JS.Fin (-0.25); JS.Fin 0.5; JS.Fin 1.5; JS.Fin (-7); JS.Fin (1 # 100000)]
  = [-8192; 16383; 32767; -32768; 0]%Z.
Proof. vm_compute. reflexivity. Qed.

Lemma pcm_bytes (input : list JS.number) :
  Forall (fun b => (0 <= b < 256)%Z) (pcm input).
Proof.
  unfold pcm. induction input as [|x rest IH]; [constructor|].
  cbn [flat_map]. apply Forall_app. split; [|exact IH].
  unfold le16. repeat constructor; apply WavFacts.byteOf_range.
Qed.

Lemma header_bytes (n : nat) (sampleRate : Z) :
  Forall (fun b => (0 <= b < 256)%Z) (header n sampleRate).
Proof.
  assert (C : forall s, Forall (fun b => (0 <= b < 256)%Z) (chars s)).
  { intros s. unfold chars. apply Forall_forall. intros b H.
    apply in_map_iff in H as (c & <- & _). unfold charCode.
    pose proof (nat_ascii_bounded c). lia. }
  assert (L2 : forall v, Forall (fun b => (0 <= b < 256)%Z) (le16 v))
    by (intros v; unfold le16; repeat constructor; apply WavFacts.byteOf_range).
  assert (L4 : forall v, Forall (fun b => (0 <= b < 256)%Z) (le32 v))
    by (intros v; unfold le32; repeat constructor; apply WavFacts.byteOf_range).
  unfold header. repeat (apply Forall_app; split); auto.
Qed.

(** X16.  [encodeWav] never throws and always returns a well-formed buffer:
    for any samples whatever ([NaN], infinities and values outside [-1, 1]
    included) and any integral sample rate, negative or beyond 32 bits
    included, every setter stays inside the buffer; the result has 44 + 2n
    bytes, each in 0..255, starts with "RIFF" and holds after the header
    two bytes per sample that do not depend on the rate. *)
Theorem encodeWav_never_throws (samples : list JS.number) (sampleRate : Z) :
  exists bytes,
    encodeWav samples sampleRate = Normal bytes
    /\ length bytes = (44 + 2 * length samples)%nat
    /\ Forall (fun b => (0 <= b < 256)%Z) bytes
    /\ firstn 4 bytes = chars "RIFF"
    /\ skipn 44 bytes = pcm samples
    /\ forall otherRate bytes',
         encodeWav samples otherRate = Normal bytes' -> skipn 44 bytes' = skipn 44 bytes.
Proof.
  exists (header (length samples) sampleRate ++ pcm samples).
  assert (S : forall r, skipn 44 (header (length samples) r ++ pcm samples) = pcm samples).
  { intros r. rewrite <- (WavFacts.header_length (length samples) r).
    rewrite skipn_app, skipn_all, Nat.sub_diag. reflexivity. }
  split; [apply WavFacts.encodeWav_bytes|].
  split; [rewrite length_app, WavFacts.header_length, WavFacts.pcm_length; lia|].
  split; [apply Forall_app; split; [apply header_bytes | apply pcm_bytes]|].
  split; [reflexivity|].
  split; [apply S|].
  intros r bytes' E. rewrite WavFacts.encodeWav_bytes in E. injection E as <-.
  now rewrite !S.
Qed.

End QuantizerFacts.

(** ** The export panel: a recording session *)

Module RecorderEventsFacts.
Import Recorder RecorderEvents.

Lemma chunks_collected (sizes : list Z) (p : Panel) :
  fold_left (fun q size => ondataavailable size q) sizes p
  = mkPanel (canvas p) (status p) (message p) (downloadReady p) (downloadSize p)
      (recorderRef p) (exportChunks p ++ filter (fun size => (0 <? size)%Z) sizes)
      (downloadUrl p) (lastMime p).
Proof.
  revert p. induction sizes as [|size rest IH]; intros p.
  - cbn. rewrite app_nil_r. now destruct p.
  - cbn [fold_left filter]. rewrite IH. unfold ondataavailable.
    destruct (0 <? size)%Z; cbn; [now rewrite <- app_assoc | reflexivity].
Qed.

Lemma blobSize_nonneg (sizes : list Z) :
  (0 <= blobSize (filter (fun size => (0 <? size)%Z) sizes))%Z.
Proof.
  induction sizes as [|size rest IH]; [cbn; lia|].
  cbn [filter]. destruct (Z.ltb_spec 0 size); [|exact IH].
  unfold blobSize in *. cbn [fold_right]. lia.
Qed.

Section Session.

Variable isTypeSupported : string -> bool.
Variable captureAudioStream : option MediaStream.
Variable createObjectURL : list Z -> string.

(** What [startRecording] does when it gets through. *)
Lemma startRecording_installs (requested : string) (canvasStream : MediaStream) (p : Panel) :
  canvas p = Some canvasStream -> recorderRef p = None ->
  isTypeSupported (if isTypeSupported requested then requested else "video/webm"%string) = true ->
  let p1 := startRecording isTypeSupported captureAudioStream requested p in
  status p1 = recording /\ exportChunks p1 = [] /\ canvas p1 = canvas p
  /\ downloadReady p1 = false /\ downloadSize p1 = None
  /\ lastMime p1 = (if isTypeSupported requested then requested else "video/webm"%string)
  /\ exists r, recorderRef p1 = Some r /\ mimeType r = lastMime p1 /\ state r = active.
Proof.
  intros C R S. cbv zeta. unfold startRecording. rewrite C, R, S. cbn.
  repeat split; try reflexivity; try congruence. eexists. repeat split.
Qed.

(** X17.  A recording session from start to download: started on a mounted
    canvas with no recorder and a supported type, fed any chunks before
    [stopRecording] and any after it (the last chunk arrives once the
    recorder is stopped), the panel ends at the stop event as complete with
    the download ready; the reported size is the sum of the chunks that were
    not empty, whatever an earlier session had left behind; [download] then
    clicks a link to the new URL and leaves the panel alone; and a new
    recording is accepted again, which withdraws the ready flag. *)
Theorem recording_session (requested : string) (sizes later : list Z) (now : Z)
  (canvasStream : MediaStream) (p : Panel) :
  canvas p = Some canvasStream -> recorderRef p = None ->
  isTypeSupported requested = true ->
  let p1 := startRecording isTypeSupported captureAudioStream requested p in
  let p2 := fold_left (fun q size => ondataavailable size q) sizes p1 in
  let p3 := fold_left (fun q size => ondataavailable size q) later (stopRecording p2) in
  let p4 := onstop createObjectURL p3 in
  let kept := filter (fun size => (0 <? size)%Z) (sizes ++ later) in
  status p1 = recording
  /\ status p4 = complete /\ downloadReady p4 = true
  /\ downloadSize p4 = Some (blobSize kept) /\ (0 <= blobSize kept)%Z
  /\ recorderRef p4 = None /\ lastMime p4 = requested
  /\ download now p4
     = (p4, Some (createObjectURL kept,
                  ("avatar-export-" ++ MediaControls.showInt now ++ "." ++ extension p4)%string))
  /\ status (startRecording isTypeSupported captureAudioStream requested p4) = recording
  /\ downloadReady (startRecording isTypeSupported captureAudioStream requested p4) = false.
Proof.
  intros C R S. cbv zeta.
  assert (S' : isTypeSupported (if isTypeSupported requested then requested
                                else "video/webm"%string) = true) by now rewrite S.
  destruct (startRecording_installs requested canvasStream p C R S')
    as (H1 & H2 & H3 & H4 & H5 & H6 & r & H7 & H8 & H9).
  rewrite S in H6.
  set (p1 := startRecording isTypeSupported captureAudioStream requested p) in *.
  rewrite (chunks_collected sizes). rewrite H2. cbn [app].
  unfold stopRecording. cbn [recorderRef]. rewrite H7.
  unfold dropRecorder. rewrite (chunks_collected later).
  unfold onstop. cbn [exportChunks canvas lastMime recorderRef downloadUrl
    status downloadReady downloadSize message].
  rewrite <- filter_app.
  split; [exact H1|]. split; [reflexivity|]. split; [reflexivity|].
  split; [reflexivity|]. split; [apply blobSize_nonneg|]. split; [reflexivity|].
  split; [exact H6|]. split; [reflexivity|].
  match goal with
  | |- context [startRecording _ _ _ ?q] =>
      destruct (startRecording_installs requested canvasStream q) as (G1 & _ & _ & G4 & _);
        [cbn; congruence | reflexivity | exact S' |]
  end.
  split; [exact G1 | exact G4].
Qed.

(** X18.  The name of the download matches what was recorded: after a
    [startRecording] that got through, the recorded type is the requested one
    when the browser supports it and "video/webm" otherwise, and the
    extension is "mp4" or "webm"; for the panel's WebM button it is "webm",
    and for its MP4 button it is "mp4" when MP4 is supported and "webm" when
    the recorder fell back. *)
Theorem download_extension (requested : string) (p : Panel) :
  let p1 := startRecording isTypeSupported captureAudioStream requested p in
  status p1 = recording ->
  lastMime p1 = (if isTypeSupported requested then requested else "video/webm"%string)
  /\ isTypeSupported (lastMime p1) = true
  /\ (extension p1 = "mp4"%string \/ extension p1 = "webm"%string)
  /\ (requested = "video/webm;codecs=vp9,opus"%string -> extension p1 = "webm"%string)
  /\ (requested = "video/mp4;codecs=h264,aac"%string ->
      extension p1 = if isTypeSupported requested then "mp4"%string else "webm"%string).
Proof.
  cbv zeta. unfold startRecording.
  destruct (canvas p) as [canvasStream|]; [|discriminate].
  destruct (recorderRef p); [discriminate|].
  destruct (isTypeSupported requested) eqn:R; cbv iota.
  - rewrite R. cbn [negb]. intros _. unfold extension.
    cbn [report install clearDownload lastMime mimeType].
    split; [reflexivity|]. split; [exact R|].
    split; [destruct (includes requested "mp4"); auto|].
    split; intros ->; reflexivity.
  - destruct (isTypeSupported "video/webm") eqn:W; [|discriminate].
    cbn [negb]. intros _. unfold extension.
    cbn [report install clearDownload lastMime mimeType].
    split; [reflexivity|]. split; [exact W|].
    split; [right; reflexivity|].
    split; intros _; reflexivity.
Qed.

(** X19.  An error during a recording: [onerror] reports it, lets go of the
    recorder and keeps the chunks, so a new recording can start; when the
    stop event of the stopped recorder follows, [onstop] overwrites the error
    with the complete status and offers what was recorded so far. *)
Theorem recording_error_then_stop (name : string) (p : Panel) :
  let p1 := onerror name p in
  let p2 := onstop createObjectURL p1 in
  status p1 = error /\ message p1 = Some ("Recording error: " ++ name)%string
  /\ recorderRef p1 = None /\ exportChunks p1 = exportChunks p
  /\ (canvas p <> None ->
      isTypeSupported "video/webm" = true ->
      forall requested,
        status (startRecording isTypeSupported captureAudioStream requested p1) = recording)
  /\ status p2 = complete
  /\ message p2 = Some "Rendering complete. Download ready!"%string
  /\ downloadReady p2 = true
  /\ downloadSize p2 = Some (blobSize (exportChunks p)).
Proof.
  cbv zeta. repeat split; try reflexivity.
  intros C S requested. destruct (canvas p) as [canvasStream|] eqn:E; [|congruence].
  apply (startRecording_installs requested canvasStream); [exact E | reflexivity |].
  destruct (isTypeSupported requested) eqn:R; [exact R | exact S].
Qed.

End Session.

Lemma recording_session_witness :
  let supported := fun _ : string => true in
  let url := fun _ : list Z => "blob:export"%string in
  let p := mkPanel (Some [VideoTrack 0]) complete None true (Some 7%Z) None [7%Z]
             (Some "blob:old"%string) "video/webm" in
  let p1 := startRecording supported None "video/mp4;codecs=h264,aac" p in
  let p2 := fold_left (fun q size => ondataavailable size q) [1200; 0]%Z p1 in
  let p3 := fold_left (fun q size => ondataavailable size q) [800]%Z (stopRecording p2) in
  let p4 := onstop url p3 in
  let kept := filter (fun size => (0 <? size)%Z) ([1200; 0] ++ [800])%Z in
  status p1 = recording
  /\ status p4 = complete /\ downloadReady p4 = true
  /\ downloadSize p4 = Some (blobSize kept) /\ (0 <= blobSize kept)%Z
  /\ recorderRef p4 = None /\ lastMime p4 = "video/mp4;codecs=h264,aac"%string
  /\ download 1700000000000 p4
     = (p4, Some (url kept,
                  ("avatar-export-" ++ MediaControls.showInt 1700000000000 ++ "."
                   ++ extension p4)%string))
  /\ status (startRecording supported None "video/mp4;codecs=h264,aac" p4) = recording
  /\ downloadReady (startRecording supported None "video/mp4;codecs=h264,aac" p4) = false.
Proof.
  apply (recording_session (fun _ => true) None (fun _ => "blob:export"%string)
           "video/mp4;codecs=h264,aac" [1200; 0]%Z [800]%Z 1700000000000 [VideoTrack 0]);
    reflexivity.
Defined.

Lemma download_extension_witness :
  let supported := fun m : string => String.eqb m "video/webm" in
  let p := mkPanel (Some [VideoTrack 0]) idle None false None None [] None "video/webm" in
  let p1 := startRecording supported None "video/mp4;codecs=h264,aac" p in
  lastMime p1
  = (if supported "video/mp4;codecs=h264,aac"%string then "video/mp4;codecs=h264,aac"%string
     else "video/webm"%string)
  /\ supported (lastMime p1) = true
  /\ (extension p1 = "mp4"%string \/ extension p1 = "webm"%string)
  /\ ("video/mp4;codecs=h264,aac"%string = "video/webm;codecs=vp9,opus"%string ->
      extension p1 = "webm"%string)
  /\ ("video/mp4;codecs=h264,aac"%string = "video/mp4;codecs=h264,aac"%string ->
      extension p1 = if supported "video/mp4;codecs=h264,aac"%string then "mp4"%string
                     else "webm"%string).
Proof.
  apply (download_extension (fun m => String.eqb m "video/webm") None
           "video/mp4;codecs=h264,aac"
           (mkPanel (Some [VideoTrack 0]) idle None false None None [] None "video/webm")).
  reflexivity.
Defined.

(** The file names of the two buttons, with and without MP4 support. *)
Example download_names :
  let p := mkPanel (Some [VideoTrack 0]) idle None false None None [] None "video/webm" in
  let session := fun supported requested =>
    snd (download 1700000000000
           (onstop (fun _ => "blob:export"%string)
              (stopRecording (startRecording supported None requested p)))) in
  session (fun _ => true) "video/mp4;codecs=h264,aac"%string
  = Some ("blob:export", "avatar-export-1700000000000.mp4")%string
  /\ session (fun m => String.eqb m "video/webm") "video/mp4;codecs=h264,aac"%string
     = Some ("blob:export", "avatar-export-1700000000000.webm")%string
  /\ session (fun _ => true) "video/webm;codecs=vp9,opus"%string
     = Some ("blob:export", "avatar-export-1700000000000.webm")%string.
Proof. vm_compute. repeat split. Qed.

End RecorderEventsFacts.

(** ** The transport and the level meter *)

Module TransportFacts.
Import AudioEngine Transport.

Section Calls.

Variable disconnectThrows : nat -> bool.

Lemma release_keeps (e : Engine) :
  exists e', release disconnectThrows e = Normal e'
             /\ error e' = error e
             /\ duration e' = duration e
             /\ audioElementRef e'
                = option_map (fun audio => load (removeSrc (pause audio))) (audioElementRef e).
Proof.
  destruct e as [lvl playing dur time err meta audio node frame nodes frames].
  unfold release, cleanupSource, disconnect. cbn.
  destruct node as [n|]; try destruct (disconnectThrows n);
    destruct audio as [a|]; cbn;
    destruct (Z.eqb frame 0); cbn;
    eexists; (split; [reflexivity|]); cbn; repeat split; reflexivity.
Qed.

(** One call keeps the playback position finite, the error untouched and
    the element in place. *)
Lemma step_keeps (c : Command) (e : Engine) :
  (forall audio, audioElementRef e = Some audio -> JS.isFinite (currentTime audio) = true) ->
  exists e',
    step disconnectThrows c e = Normal e'
    /\ (forall audio, audioElementRef e' = Some audio ->
          JS.isFinite (currentTime audio) = true)
    /\ error e' = error e
    /\ (audioElementRef e' = None <-> audioElementRef e = None).
Proof.
  intros H. destruct c as [value| | |d]; cbn [step].
  - unfold seek. destruct (audioElementRef e) as [audio|] eqn:A.
    + destruct (JS.isFinite value) eqn:F; cbn [negb].
      * eexists. split; [reflexivity|]. cbn. split; [|split; [reflexivity|]].
        -- intros a [= <-]. exact F.
        -- split; discriminate.
      * exists e. split; [reflexivity|]. rewrite A. split; [exact H|].
        split; [reflexivity | tauto].
    + exists e. split; [reflexivity|]. rewrite A. split; [exact H|].
      split; [reflexivity | tauto].
  - unfold stop. destruct (audioElementRef e) as [audio|] eqn:A.
    + eexists. split; [reflexivity|]. cbn. split; [|split; [reflexivity|]].
      * intros a [= <-]. reflexivity.
      * split; discriminate.
    + exists e. split; [reflexivity|]. rewrite A. split; [exact H|].
      split; [reflexivity | tauto].
  - destruct (release_keeps e) as (e' & R & E & _ & A). exists e'.
    split; [exact R|]. rewrite A. split; [|split; [exact E|]].
    + destruct (audioElementRef e); [intros a [= <-]; reflexivity | discriminate].
    + destruct (audioElementRef e); cbn; split; congruence.
  - eexists. split; [reflexivity|]. cbn. split; [exact H|]. split; [reflexivity | tauto].
Qed.

Lemma run_app (cs cs' : list Command) (e : Engine) :
  run disconnectThrows (cs ++ cs') e
  = (e' <- run disconnectThrows cs e ;; run disconnectThrows cs' e')%completion.
Proof.
  revert e. induction cs as [|c cs IH]; intros e; [reflexivity|].
  cbn [app run]. destruct (step disconnectThrows c e) as [e1|msg]; cbn [bind];
    [apply IH | reflexivity].
Qed.

(** X20.  No sequence of [seek], [stop], [release] and [loadedmetadata]
    calls throws; a playback position that was finite stays finite, the
    reported error is left alone and the media element stays in place; and
    whatever came before, a final [stop] leaves the element paused at 0 with
    its source kept. *)
Theorem transport_never_throws (cs : list Command) (e : Engine) :
  (forall audio, audioElementRef e = Some audio -> JS.isFinite (currentTime audio) = true) ->
  (exists e',
     run disconnectThrows cs e = Normal e'
     /\ (forall audio, audioElementRef e' = Some audio ->
           JS.isFinite (currentTime audio) = true)
     /\ error e' = error e
     /\ (audioElementRef e' = None <-> audioElementRef e = None))
  /\ (audioElementRef e <> None ->
      exists e1 e2 audio,
        run disconnectThrows cs e = Normal e1
        /\ audioElementRef e1 = Some audio
        /\ run disconnectThrows (cs ++ [Stop]) e = Normal e2
        /\ audioElementRef e2 = Some (mkMedia (src audio) true (JS.Fin 0))).
Proof.
  intros H.
  assert (A : exists e',
     run disconnectThrows cs e = Normal e'
     /\ (forall audio, audioElementRef e' = Some audio ->
           JS.isFinite (currentTime audio) = true)
     /\ error e' = error e
     /\ (audioElementRef e' = None <-> audioElementRef e = None)).
  { revert e H. induction cs as [|c cs IH]; intros e H.
    - exists e. split; [reflexivity|]. split; [exact H|]. split; [reflexivity | tauto].
    - destruct (step_keeps c e H) as (e1 & S1 & F1 & E1 & A1).
      destruct (IH e1 F1) as (e2 & S2 & F2 & E2 & A2).
      exists e2. cbn [run]. rewrite S1. cbn [bind].
      split; [exact S2|]. split; [exact F2|]. split; [congruence | tauto]. }
  split; [exact A|].
  intros N. destruct A as (e1 & R & _ & _ & A).
  destruct (audioElementRef e1) as [audio|] eqn:E1; [|tauto].
  exists e1. eexists. exists audio.
  split; [exact R|]. split; [exact E1|].
  rewrite run_app, R. cbn [bind run step]. unfold stop. rewrite E1. cbn [bind].
  split; reflexivity.
Qed.

End Calls.

Lemma transport_never_throws_witness :
  let throws := fun _ : nat => true in
  let e := mkEngine (JS.Fin 0.25) true (JS.Fin 30) (JS.Fin 12.5) None None
             (Some (mkMedia (Some "blob:voice"%string) false (JS.Fin 12.5)))
             (Some 1%nat) 7 [1%nat] [7%Z] in
  let cs := [Seek JS.NaN; Seek (JS.Fin 3); Loaded JS.NaN; Release; Seek JS.PInf] in
  (exists e',
     run throws cs e = Normal e'
     /\ (forall audio, audioElementRef e' = Some audio ->
           JS.isFinite (currentTime audio) = true)
     /\ error e' = error e
     /\ (audioElementRef e' = None <-> audioElementRef e = None))
  /\ (audioElementRef e <> None ->
      exists e1 e2 audio,
        run throws cs e = Normal e1
        /\ audioElementRef e1 = Some audio
        /\ run throws (cs ++ [Stop]) e = Normal e2
        /\ audioElementRef e2 = Some (mkMedia (src audio) true (JS.Fin 0))).
Proof.
  apply (transport_never_throws (fun _ => true)).
  intros audio [= <-]. reflexivity.
Defined.

(** X21.  After [loadedmetadata] the reported duration is a number: a
    missing duration ([NaN]) and zero are reported as 0 and any other value
    as it is; the source metadata, when there is one, gets the same duration
    and keeps its type, label and URL; and for a duration that is not
    negative the progress bar of a position that is not negative is between
    0 and 100 percent, also for a stream of unbounded duration. *)
Theorem loaded_duration_is_a_number (audioDuration : JS.number) (e : Engine) :
  let e' := handleLoaded audioDuration e in
  duration e' <> JS.NaN
  /\ duration e' = (if MediaControls.falsy audioDuration then JS.Fin 0 else audioDuration)
  /\ sourceMeta e'
     = option_map (fun m => mkMeta (meta_type m) (meta_label m) (duration e') (meta_url m))
         (sourceMeta e)
  /\ audioElementRef e' = audioElementRef e /\ error e' = error e
  /\ (JS.lt audioDuration (JS.Fin 0) = false ->
      forall c : Q, 0 <= c ->
      exists p : Q,
        MediaControls.progress (JS.Fin c) (duration e') = JS.Fin p /\ 0 <= p <= 100).
Proof.
  cbv zeta. cbn [handleLoaded setSourceMeta setDuration duration sourceMeta
    audioElementRef error].
  split; [destruct audioDuration as [| | |q]; cbn; try discriminate;
          destruct (Qeq_bool q 0); discriminate|].
  split; [reflexivity|]. split; [reflexivity|]. split; [reflexivity|].
  split; [reflexivity|].
  intros Hd c Hc. destruct audioDuration as [| | |q]; cbn [MediaControls.falsy].
  - exists 0. split; [reflexivity | lra].
  - exists 0. split; [reflexivity | lra].
  - discriminate.
  - cbn [JS.lt] in Hd. apply Qltb_false in Hd.
    destruct (Qeq_bool q 0) eqn:Z0.
    + exists 0. split; [reflexivity | lra].
    + assert (0 < q).
      { apply Qle_lt_or_eq in Hd as [L|E]; [exact L|].
        assert (Qeq_bool q 0 = true) by (apply Qeq_bool_iff; now rewrite <- E).
        congruence. }
      destruct (MediaControlsFacts.progress_bounds c q Hc H) as (p & P & R & _).
      exists p. split; [exact P | exact R].
Qed.

(** X22.  The audio level [analyseLevel] reports is a level: for any
    time-domain data it is in [[0, 1]] unless the data made the mean square
    [NaN] (an empty buffer, or a sample that is not a number), in which case
    it is [NaN]; and the level meter turns a level in [[0, 1]] into a width
    between 0 and 100 percent, full from 5/6 up. *)
Theorem audio_level_in_range (data : list float) :
  (if is_nan (rms data * 8)
   then level data = nan
   else is_nan (level data) = false
        /\ (0 <=? level data)%float = true /\ (level data <=? 1)%float = true)
  /\ level [] = nan
  /\ forall l : Q, 0 <= l <= 1 ->
       exists w : Q,
         MediaControls.levelWidth (JS.Fin l) = JS.Fin w
         /\ 0 <= w <= 100 /\ (5 # 6 <= l -> w == 100) /\ (l <= 5 # 6 -> w == l * 120).
Proof.
  split; [|split; [vm_compute; reflexivity|]].
  - unfold level. destruct (is_nan (rms data * 8)) eqn:N.
    + unfold F64.max. rewrite N. rewrite orb_true_r. reflexivity.
    + destruct (Animator64Facts.max_spec 0 (rms data * 8) eq_refl N) as (HM & HM0 & _).
      assert (Hn : is_nan (F64.max 0 (rms data * 8)) = false)
        by (destruct HM as [-> | ->]; auto).
      destruct (Animator64Facts.min_spec 1 (F64.max 0 (rms data * 8)) eq_refl Hn)
        as (Hm & Hm1 & _).
      split; [destruct Hm as [-> | ->]; auto|].
      split; [destruct Hm as [-> | ->]; [reflexivity | exact HM0] | exact Hm1].
  - intros l [L0 L1]. unfold MediaControls.levelWidth. cbn [JS.mul JS.min].
    case_Qle 100 (l * 120).
    + exists 100. split; [reflexivity|]. split; [lra|]. split; [reflexivity | lra].
    + exists (l * 120). split; [reflexivity|]. split; [lra|]. split; [lra | reflexivity].
Qed.

Example level_examples :
  level [0; 0; 0; 0]%float = 0%float
  /\ level [0.05; -0.05; 0.05; -0.05]%float = 0.4%float
  /\ level [0.5; -0.5]%float = 1%float.
Proof. vm_compute. repeat split. Qed.

End TransportFacts.

(** ** Head and hands *)

Module BodyFacts.
Import Body.



(** The bounds are reached: full sliders, a full level and a sine of 1 give
    a head nod of 55, turned by 28.4 degrees under the right three-quarter
    preset, and a hand energy of 170. *)
Example body_motion_extremes :
  dynamicHead (fun _ => 1) 35 1 90 == 55
  /\ headRotation (dynamicHead (fun _ => 1) 35 1 90) Animator.threeQuarterRight == 28.4
  /\ dynamicHandEnergy (fun _ => 1) 100 1 90 == 170.
Proof. vm_compute. repeat split. Qed.

End BodyFacts.
